(** * Sqweek858/kitty: the Christmas-tree fragment shader and the terminal
      starfield painter

    The development has two parts.

    - [christmas_tree.cpp]: the GLSL fragment shader [fragmentShaderSource]
      is embedded as a function on the real numbers [R]: every GLSL [float]
      is read as the real number it denotes and every built-in ([sin],
      [fract], [smoothstep], [mix], [length], [pow], ...) as the function
      of the GLSL specification.  Rounding is not modelled.
    - [parallax.cpp]: the star generation loop of [main] is embedded on
      32-bit two's-complement integers (as [Z] with the wrap-around written
      out), threading the state of the random engine. *)

From Stdlib Require Import Reals Lra Lia ZArith List Bool.
From Stdlib Require Import String Ascii DecimalString.
Import ListNotations.

(* ================================================================== *)
(** * GLSL built-ins on the reals *)
(* ================================================================== *)

Module GLSL.
Open Scope R_scope.

Record vec2 := Vec2 { vx : R; vy : R }.
Record vec3 := Vec3 { cr : R; cg : R; cb : R }.
Record vec4 := Vec4 { rgb : vec3; alpha : R }.

(** Comparisons of the shader, as booleans. *)
Definition ltb (x y : R) : bool := if Rlt_dec x y then true else false.
Definition gtb (x y : R) : bool := ltb y x.

(** [fract(x) = x - floor(x)]. *)
Definition floor (x : R) : R := IZR (Int_part x).
Definition fract (x : R) : R := x - floor x.

(** [clamp(x, lo, hi) = min(max(x, lo), hi)]. *)
Definition clamp (x lo hi : R) : R := Rmin (Rmax x lo) hi.

(** [smoothstep(edge0, edge1, x)]: Hermite interpolation of the clamped
    ratio.  The shader calls it with [edge0 > edge1] as well; the formula
    is the same. *)
Definition hermite (t : R) : R := t * t * (3 - 2 * t).
Definition smoothstep (edge0 edge1 x : R) : R :=
  hermite (clamp ((x - edge0) / (edge1 - edge0)) 0 1).

(** [mix(x, y, a) = x*(1-a) + y*a]. *)
Definition mix (x y a : R) : R := x * (1 - a) + y * a.

(** [sign(x)]. *)
Definition sign (x : R) : R :=
  if Rlt_dec 0 x then 1 else if Rlt_dec x 0 then -1 else 0.

(** [pow(x, y)]: [exp(y * ln x)] for a positive base, [0] at base [0]
    (every call of the shader has a positive exponent). *)
Definition pow (x y : R) : R :=
  if Req_dec_T x 0 then 0 else Rpower x y.

(** Two-argument [atan(y, x)]: the angle of the point [(x, y)]. *)
Definition atan2 (y x : R) : R :=
  if Rlt_dec 0 x then atan (y / x)
  else if Rlt_dec x 0 then
         (if Rlt_dec y 0 then atan (y / x) - PI else atan (y / x) + PI)
  else if Rlt_dec 0 y then PI / 2
  else if Rlt_dec y 0 then - (PI / 2)
  else 0.

(** Vector operations used by the shader. *)
Definition length (v : vec2) : R := sqrt (vx v * vx v + vy v * vy v).
Definition sub2 (a b : vec2) : vec2 := Vec2 (vx a - vx b) (vy a - vy b).
Definition sub2s (a : vec2) (s : R) : vec2 := Vec2 (vx a - s) (vy a - s).
Definition scale3 (c : vec3) (s : R) : vec3 :=
  Vec3 (cr c * s) (cg c * s) (cb c * s).
Definition add3 (a b : vec3) : vec3 :=
  Vec3 (cr a + cr b) (cg a + cg b) (cb a + cb b).
Definition mix3 (a b : vec3) (t : R) : vec3 :=
  Vec3 (mix (cr a) (cr b) t) (mix (cg a) (cg b) t) (mix (cb a) (cb b) t).

End GLSL.

(* ================================================================== *)
(** * christmas_tree.cpp: configuration and fragment shader *)
(* ================================================================== *)

Module Config.
Definition WIDTH : Z := 200.
Definition HEIGHT : Z := 280.
Definition MARGIN_RIGHT : Z := 50.
Definition MARGIN_BOTTOM : Z := 100.
End Config.

Module SceneShader.
Import GLSL.
Open Scope R_scope.

(** [float hash(float n)]. *)
Definition hash (n : R) : R := fract (sin n * 43758.5453123).

(** The running [(finalColor, finalAlpha)] of [main]. *)
Record Acc := MkAcc { finalColor : vec3; finalAlpha : R }.

(** The locals of the coordinate set-up at the head of [main]. *)
Record Frame := MkFrame {
  uv : vec2;
  aspect : R;
  p : vec2;
  time : R;
  rotAngle : R;
  rotPhase : R
}.

Definition setup (uResolution fragCoord : vec2) (uTime : R) : Frame :=
  let uv := fragCoord in
  let aspect := vx uResolution / vy uResolution in
  let p := sub2 uv (Vec2 0.5 0.35) in
  let p := Vec2 (vx p * aspect) (vy p) in
  let time := uTime in
  let rotAngle := time * 0.5 in
  let rotPhase := sin rotAngle in
  MkFrame uv aspect p time rotAngle rotPhase.

(** ** Tree parameters *)
Definition treeHeight : R := 0.55.
Definition treeWidth : R := 0.28.
Definition trunkHeight : R := 0.08.
Definition trunkWidth : R := 0.045.

(** ** Trunk *)
Definition trunkTop : R := -0.22.
Definition trunkBottom : R := trunkTop - trunkHeight.

Definition trunk (F : Frame) (acc : Acc) : Acc :=
  let p := p F in
  if gtb (vy p) trunkBottom && ltb (vy p) trunkTop
     && ltb (Rabs (vx p)) trunkWidth
  then
    let trunkShade := 0.7 + 0.3 * rotPhase F * (vx p / trunkWidth) in
    let trunkColor := scale3 (Vec3 0.4 0.22 0.1) trunkShade in
    MkAcc trunkColor (smoothstep trunkWidth (trunkWidth - 0.01) (Rabs (vx p)))
  else acc.

(** ** Tree cone: three layered triangles *)
Definition layer1Bottom : R := -0.24.
Definition layer1Top : R := layer1Bottom + 0.28.
Definition layer1Width : R := 0.26.

Definition layer2Bottom : R := layer1Bottom + 0.15.
Definition layer2Top : R := layer2Bottom + 0.26.
Definition layer2Width : R := 0.21.

Definition layer3Bottom : R := layer2Bottom + 0.14.
Definition layer3Top : R := layer3Bottom + 0.24.
Definition layer3Width : R := 0.16.

(** The outer test of a layer block: [p.y > layerBottom && p.y < layerTop]. *)
Definition in_band (layerBottom layerTop : R) (p : vec2) : bool :=
  gtb (vy p) layerBottom && ltb (vy p) layerTop.

(** The three layer blocks of [main] are the same text up to the three
    constants of the layer; [foliage_layer] is that block. *)
Definition foliage_layer (layerBottom layerTop layerWidth0 : R)
    (F : Frame) (acc : Acc) : Acc :=
  let p := p F in
  if in_band layerBottom layerTop p then
    let heightNorm := (vy p - layerBottom) / (layerTop - layerBottom) in
    let layerWidth := layerWidth0 * (1 - heightNorm) in
    if ltb (Rabs (vx p)) layerWidth then
      let shade :=
        0.6 + 0.4 * (0.5 + 0.5 * rotPhase F * (vx p / Rmax layerWidth 0.01)) in
      let shade := shade * (0.85 + 0.15 * heightNorm) in
      let treeGreen := mix3 (Vec3 0 0.18 0.1) (Vec3 0 0.45 0.25) shade in
      let treeGreen :=
        add3 treeGreen
             (scale3 (scale3 (Vec3 0 0.15 0.08) (1 - Rabs (vx p) / layerWidth))
                     0.5) in
      let edgeSoftness := smoothstep layerWidth (layerWidth - 0.015) (Rabs (vx p)) in
      MkAcc treeGreen (Rmax (finalAlpha acc) edgeSoftness)
    else acc
  else acc.

Definition layer1 := foliage_layer layer1Bottom layer1Top layer1Width.
Definition layer2 := foliage_layer layer2Bottom layer2Top layer2Width.
Definition layer3 := foliage_layer layer3Bottom layer3Top layer3Width.

(** ** Christmas lights *)
Definition lightColors : list vec3 :=
  [ Vec3 1 0.15 0.5;    (* Hot pink *)
    Vec3 0 1 1;         (* Cyan *)
    Vec3 1 0.85 0;      (* Gold *)
    Vec3 0.65 0.1 1;    (* Purple *)
    Vec3 0.2 1 0.45;    (* Neon green *)
    Vec3 1 0.45 0;      (* Orange *)
    Vec3 0.2 0.6 1;     (* Electric blue *)
    Vec3 1 0.05 0.65 ]. (* Magenta *)

Definition lightPositions : list vec2 :=
  [ Vec2 (-0.12) (-0.15);
    Vec2 0.10 (-0.10);
    Vec2 (-0.06) (-0.02);
    Vec2 0.14 (-0.18);
    Vec2 (-0.08) 0.08;
    Vec2 0.06 0.02;
    Vec2 (-0.03) 0.15;
    Vec2 0.09 0.10;
    Vec2 (-0.05) 0.22;
    Vec2 0.04 0.18;
    Vec2 (-0.02) 0.28;
    Vec2 0.02 0.25 ].

Definition at3 (l : list vec3) (i : Z) : vec3 := nth (Z.to_nat i) l (Vec3 0 0 0).
Definition at2 (l : list vec2) (i : Z) : vec2 := nth (Z.to_nat i) l (Vec2 0 0).

(** The locals of one iteration of the light loop. *)
Record Light := MkLight {
  lightPos : vec2;
  d : R;
  blinkPhase : R;
  blinkSpeed : R;
  blink0 : R;           (* [blink] before the side-visibility factor *)
  sideVisibility : R;
  blink : R;            (* [blink] after [blink *= ...] *)
  lightCore : R;
  lightGlow : R;
  colorIdx : Z;
  thisColor : vec3
}.

Definition light (F : Frame) (i : Z) : Light :=
  let lightPos := at2 lightPositions i in
  let lightPos :=
    Vec2 (vx lightPos + sin (rotAngle F + IZR i * 0.5) * 0.015) (vy lightPos) in
  let d := length (sub2 (p F) lightPos) in
  let blinkPhase := IZR i * 0.8 + hash (IZR i) * 6.28 in
  let blinkSpeed := 2.0 + hash (IZR i + 5.0) * 2.0 in
  let blink0 :=
    0.3 + 0.7 * pow (0.5 + 0.5 * sin (time F * blinkSpeed + blinkPhase)) 2.0 in
  let sideVisibility := 0.5 + 0.5 * sign (vx lightPos) * rotPhase F in
  let blink := blink0 * (0.3 + 0.7 * sideVisibility) in
  let lightCore := smoothstep 0.025 0.005 d * blink in
  let lightGlow := smoothstep 0.07 0.01 d * blink * 0.5 in
  let colorIdx := (i - (Z.quot i 8) * 8)%Z in
  let thisColor := at3 lightColors colorIdx in
  MkLight lightPos d blinkPhase blinkSpeed blink0 sideVisibility blink
          lightCore lightGlow colorIdx thisColor.

(** "Add to final color". *)
Definition add_light (L : Light) (acc : Acc) : Acc :=
  let c := mix3 (finalColor acc) (thisColor L) (lightCore L) in
  let c := add3 c (scale3 (thisColor L) (lightGlow L)) in
  MkAcc c (Rmax (finalAlpha acc) (lightCore L + lightGlow L * 0.5)).

(** [for (int i = 0; i < 12; i++)]. *)
Definition light_indices : list Z := map Z.of_nat (seq 0 12).

Definition lights (F : Frame) (acc : Acc) : Acc :=
  fold_left (fun acc i => add_light (light F i) acc) light_indices acc.

(** ** Star on top *)
Record Star := MkStar {
  starDist : R;
  starPulse : R;
  starAngle : R;
  starShape : R;
  star : R;
  starGlow : R;
  rays : R;
  starRays : R
}.

Definition starPos : vec2 := Vec2 0.0 0.38.

Definition star_locals (F : Frame) : Star :=
  let p := p F in
  let starDist := length (sub2 p starPos) in
  let starPulse := 0.8 + 0.2 * sin (time F * 3.0) in
  let starAngle := atan2 (vy p - vy starPos) (vx p - vx starPos) in
  let starShape :=
    0.025 + 0.015 * pow (Rabs (sin (starAngle * 2.5 + 0.5))) 2.0 in
  let starShape := starShape * starPulse in
  let star := smoothstep starShape (starShape * 0.3) starDist in
  let starGlow := smoothstep 0.1 0.0 starDist * 0.6 * starPulse in
  let rays := pow (Rabs (sin (starAngle * 5.0 + time F * 1.2))) 4.0 in
  let starRays := smoothstep 0.12 0.02 starDist * rays * 0.4 * starPulse in
  MkStar starDist starPulse starAngle starShape star starGlow rays starRays.

Definition starGold : vec3 := Vec3 1.0 0.85 0.1.
Definition starWhite : vec3 := Vec3 1.0 1.0 0.95.

Definition apply_star (S : Star) (acc : Acc) : Acc :=
  let c := mix3 (finalColor acc) starGold (starGlow S + starRays S) in
  let c := mix3 c (mix3 starGold starWhite 0.7) (star S) in
  MkAcc c (Rmax (finalAlpha acc) (star S + starGlow S * 0.8 + starRays S * 0.5)).

(** ** Edge glow *)
Definition edge_glow (acc : Acc) : Acc :=
  if gtb (finalAlpha acc) 0.1 && ltb (finalAlpha acc) 0.95 then
    let edgeGlow := scale3 (scale3 (Vec3 0.0 0.9 0.5) (1 - finalAlpha acc)) 0.3 in
    MkAcc (add3 (finalColor acc) edgeGlow) (finalAlpha acc)
  else acc.

(** ** Output *)
Definition vignette (uv : vec2) : R :=
  1 - smoothstep 0.4 0.7 (length (sub2s uv 0.5)).

(** The accumulator after the shape stages (trunk, layers, lights, star),
    before the edge glow. *)
Definition shapes (F : Frame) : Acc :=
  let acc := MkAcc (Vec3 0 0 0) 0 in
  let acc := trunk F acc in
  let acc := layer1 F acc in
  let acc := layer2 F acc in
  let acc := layer3 F acc in
  let acc := lights F acc in
  apply_star (star_locals F) acc.

(** [void main()]: the value written to [FragColor]. *)
Definition main (uResolution fragCoord : vec2) (uTime : R) : vec4 :=
  let F := setup uResolution fragCoord uTime in
  let acc := edge_glow (shapes F) in
  Vec4 (finalColor acc) (finalAlpha acc * vignette (uv F)).

(** The resolution the host passes in [glUniform2f(uResolutionLoc, ...)]. *)
Definition resolution : vec2 := Vec2 (IZR Config.WIDTH) (IZR Config.HEIGHT).

End SceneShader.

(* ================================================================== *)
(** * The shader again, with every division checked *)
(* ================================================================== *)

(** The same text as [SceneShader], in the error monad: a division whose
    divisor is zero aborts the evaluation with [None].  The divisions are
    the [/] of the source (on [float] and on [int]) and the one inside
    [smoothstep]. *)
Module Checked.
Import GLSL.
Import SceneShader.
Open Scope R_scope.

Definition div (a b : R) : option R :=
  if Req_dec_T b 0 then None else Some (a / b).

Definition quot (a b : Z) : option Z :=
  if Z.eq_dec b 0 then None else Some (Z.quot a b).

Definition bind {A B : Type} (m : option A) (k : A -> option B) : option B :=
  match m with Some a => k a | None => None end.

Notation "'do' x <- m ; k" := (bind m (fun x => k))
  (at level 10, x name, m at level 100, k at level 200).

Definition smoothstep (edge0 edge1 x : R) : option R :=
  do t <- div (x - edge0) (edge1 - edge0);
  Some (hermite (clamp t 0 1)).

Definition setup (uResolution fragCoord : vec2) (uTime : R) : option Frame :=
  let uv := fragCoord in
  do aspect <- div (vx uResolution) (vy uResolution);
  let p := sub2 uv (Vec2 0.5 0.35) in
  let p := Vec2 (vx p * aspect) (vy p) in
  let time := uTime in
  let rotAngle := time * 0.5 in
  let rotPhase := sin rotAngle in
  Some (MkFrame uv aspect p time rotAngle rotPhase).

Definition trunk (F : Frame) (acc : Acc) : option Acc :=
  let p := p F in
  if gtb (vy p) trunkBottom && ltb (vy p) trunkTop
     && ltb (Rabs (vx p)) trunkWidth
  then
    do q <- div (vx p) trunkWidth;
    let trunkShade := 0.7 + 0.3 * rotPhase F * q in
    let trunkColor := scale3 (Vec3 0.4 0.22 0.1) trunkShade in
    do a <- smoothstep trunkWidth (trunkWidth - 0.01) (Rabs (vx p));
    Some (MkAcc trunkColor a)
  else Some acc.

Definition foliage_layer (layerBottom layerTop layerWidth0 : R)
    (F : Frame) (acc : Acc) : option Acc :=
  let p := p F in
  if in_band layerBottom layerTop p then
    do heightNorm <- div (vy p - layerBottom) (layerTop - layerBottom);
    let layerWidth := layerWidth0 * (1 - heightNorm) in
    if ltb (Rabs (vx p)) layerWidth then
      do q <- div (vx p) (Rmax layerWidth 0.01);
      let shade := 0.6 + 0.4 * (0.5 + 0.5 * rotPhase F * q) in
      let shade := shade * (0.85 + 0.15 * heightNorm) in
      let treeGreen := mix3 (Vec3 0 0.18 0.1) (Vec3 0 0.45 0.25) shade in
      do r <- div (Rabs (vx p)) layerWidth;
      let treeGreen :=
        add3 treeGreen (scale3 (scale3 (Vec3 0 0.15 0.08) (1 - r)) 0.5) in
      do edgeSoftness <- smoothstep layerWidth (layerWidth - 0.015) (Rabs (vx p));
      Some (MkAcc treeGreen (Rmax (finalAlpha acc) edgeSoftness))
    else Some acc
  else Some acc.

Definition layer1 := foliage_layer layer1Bottom layer1Top layer1Width.
Definition layer2 := foliage_layer layer2Bottom layer2Top layer2Width.
Definition layer3 := foliage_layer layer3Bottom layer3Top layer3Width.

Definition light (F : Frame) (i : Z) : option Light :=
  let lightPos := at2 lightPositions i in
  let lightPos :=
    Vec2 (vx lightPos + sin (rotAngle F + IZR i * 0.5) * 0.015) (vy lightPos) in
  let d := length (sub2 (p F) lightPos) in
  let blinkPhase := IZR i * 0.8 + hash (IZR i) * 6.28 in
  let blinkSpeed := 2.0 + hash (IZR i + 5.0) * 2.0 in
  let blink0 :=
    0.3 + 0.7 * pow (0.5 + 0.5 * sin (time F * blinkSpeed + blinkPhase)) 2.0 in
  let sideVisibility := 0.5 + 0.5 * sign (vx lightPos) * rotPhase F in
  let blink := blink0 * (0.3 + 0.7 * sideVisibility) in
  do core <- smoothstep 0.025 0.005 d;
  let lightCore := core * blink in
  do glow <- smoothstep 0.07 0.01 d;
  let lightGlow := glow * blink * 0.5 in
  do k <- quot i 8;
  let colorIdx := (i - k * 8)%Z in
  let thisColor := at3 lightColors colorIdx in
  Some (MkLight lightPos d blinkPhase blinkSpeed blink0 sideVisibility blink
                lightCore lightGlow colorIdx thisColor).

Fixpoint lights_from (F : Frame) (idx : list Z) (acc : Acc) : option Acc :=
  match idx with
  | [] => Some acc
  | i :: idx' =>
      do L <- light F i;
      lights_from F idx' (add_light L acc)
  end.

Definition lights (F : Frame) (acc : Acc) : option Acc :=
  lights_from F light_indices acc.

Definition star_locals (F : Frame) : option Star :=
  let p := p F in
  let starDist := length (sub2 p starPos) in
  let starPulse := 0.8 + 0.2 * sin (time F * 3.0) in
  let starAngle := atan2 (vy p - vy starPos) (vx p - vx starPos) in
  let starShape :=
    0.025 + 0.015 * pow (Rabs (sin (starAngle * 2.5 + 0.5))) 2.0 in
  let starShape := starShape * starPulse in
  do star <- smoothstep starShape (starShape * 0.3) starDist;
  do glow <- smoothstep 0.1 0.0 starDist;
  let starGlow := glow * 0.6 * starPulse in
  let rays := pow (Rabs (sin (starAngle * 5.0 + time F * 1.2))) 4.0 in
  do fall <- smoothstep 0.12 0.02 starDist;
  let starRays := fall * rays * 0.4 * starPulse in
  Some (MkStar starDist starPulse starAngle starShape star starGlow rays starRays).

Definition vignette (uv : vec2) : option R :=
  do s <- smoothstep 0.4 0.7 (length (sub2s uv 0.5));
  Some (1 - s).

Definition shapes (F : Frame) : option Acc :=
  let acc := MkAcc (Vec3 0 0 0) 0 in
  do acc <- trunk F acc;
  do acc <- layer1 F acc;
  do acc <- layer2 F acc;
  do acc <- layer3 F acc;
  do acc <- lights F acc;
  do S <- star_locals F;
  Some (apply_star S acc).

Definition main (uResolution fragCoord : vec2) (uTime : R) : option vec4 :=
  do F <- setup uResolution fragCoord uTime;
  do acc <- shapes F;
  let acc := edge_glow acc in
  do v <- vignette (uv F);
  Some (Vec4 (finalColor acc) (finalAlpha acc * v)).

End Checked.

(* ================================================================== *)
(** * parallax.cpp: the starfield painter *)
(* ================================================================== *)

Module Starfield.
Open Scope Z_scope.

(** [int] is 32 bits wide, two's complement; [wrap] is the value an [int]
    operation leaves in the register. *)
Definition int_min : Z := - 2 ^ 31.
Definition int_max : Z := 2 ^ 31 - 1.
Definition wrap (z : Z) : Z := (z + 2 ^ 31) mod 2 ^ 32 - 2 ^ 31.
Definition is_int (z : Z) : Prop := int_min <= z <= int_max.

Inductive Symbol := Asterisk | Plus | Dot.

Record Star := MkStar {
  x : Z;
  y : Z;
  color_type : Z;
  brightness : Z;
  symbol : Symbol
}.

(** What a run of the generation ends in: a value, or the construction of
    a [uniform_int_distribution<int>(lo, hi)] with [hi < lo], which the
    standard leaves undefined. *)
Inductive Outcome (A : Type) : Type :=
| Done (a : A)
| EmptyRange (lo hi : Z).
Arguments Done {A} a.
Arguments EmptyRange {A} lo hi.

Section Painter.

(** The random engine [rng] and the sampling of a non-empty integer range
    come from the C++ standard library: [draw a b g] is the value
    [std::uniform_int_distribution<int>(a, b)(rng)] returns in engine state
    [g], with the next engine state. *)
Variable Rng : Type.
Variable draw : Z -> Z -> Rng -> Z * Rng.

Definition uniform_int (a b : Z) (g : Rng) : Outcome (Z * Rng) :=
  if b <? a then EmptyRange a b else Done (draw a b g).

Definition symbol_of (brightness : Z) : Symbol :=
  if 85 <? brightness then Asterisk
  else if 65 <? brightness then Plus
  else if 45 <? brightness then Dot
  else Dot.

(** [int num_stars = (cols * rows) / 35;] *)
Definition num_stars (cols rows : Z) : Z := Z.quot (wrap (cols * rows)) 35.

(** The body of the generation loop. *)
Definition new_star (cols rows : Z) (g : Rng) : Outcome (Star * Rng) :=
  match uniform_int 3 (wrap (cols - 2)) g with
  | EmptyRange lo hi => EmptyRange lo hi
  | Done (sx, g) =>
  match uniform_int 4 (wrap (rows - 2)) g with
  | EmptyRange lo hi => EmptyRange lo hi
  | Done (sy, g) =>
  match uniform_int 0 7 g with
  | EmptyRange lo hi => EmptyRange lo hi
  | Done (ct, g) =>
  match uniform_int 0 100 g with
  | EmptyRange lo hi => EmptyRange lo hi
  | Done (br, g) => Done (MkStar sx sy ct br (symbol_of br), g)
  end end end end.

(** [for (int i = 0; i < num_stars; ++i) { ...; stars.push_back(s); }],
    with [n] iterations left. *)
Fixpoint generate (n : nat) (cols rows : Z) (stars : list Star) (g : Rng)
  : Outcome (list Star * Rng) :=
  match n with
  | O => Done (stars, g)
  | S n' =>
      match new_star cols rows g with
      | EmptyRange lo hi => EmptyRange lo hi
      | Done (s, g') => generate n' cols rows (stars ++ [s]) g'
      end
  end.

(** The stars [main] has in [stars] when the loop ends. *)
Definition paint (cols rows : Z) (g : Rng) : Outcome (list Star * Rng) :=
  generate (Z.to_nat (num_stars cols rows)) cols rows [] g.

End Painter.

Arguments uniform_int {Rng} draw a b g.
Arguments new_star {Rng} draw cols rows g.
Arguments generate {Rng} draw n cols rows stars g.
Arguments paint {Rng} draw cols rows g.

(** A sampler to run the painter with: the engine state is a counter, and
    the draw is the counter reduced into the range. *)
Definition counter_draw (a b : Z) (g : Z) : Z * Z :=
  (a + g mod (b - a + 1), g + 1).

(** The ranges the claims speak of. *)
Definition in_range (cols rows : Z) (s : Star) : Prop :=
  3 <= x s <= cols - 2 /\ 4 <= y s <= rows - 2.

End Starfield.

(* ================================================================== *)
(** * The specification's formulas and vocabulary, and the inputs the
      statements below evaluate the shader at *)
(* ================================================================== *)

Module Spec.
Import GLSL.
Import SceneShader.
Open Scope R_scope.

(** The blink phase and speed of light [i], as functions of the index. *)
Definition blinkPhase_spec (i : Z) : R := IZR i * 0.8 + hash (IZR i) * 6.28.
Definition blinkSpeed_spec (i : Z) : R := 2.0 + hash (IZR i + 5) * 2.0.

(** The blink brightness in the specification's words:
    [0.3 + 0.7 * sin^2(t * blinkSpeed(i) + blinkPhase(i))]. *)
Definition blink_sin2 (i : Z) (t : R) : R :=
  0.3 + 0.7 * Rsqr (sin (t * blinkSpeed_spec i + blinkPhase_spec i)).

(** The same with the square of [0.5 + 0.5 * sin] in place of [sin^2]. *)
Definition blink_half (i : Z) (t : R) : R :=
  0.3 + 0.7 * Rsqr (0.5 + 0.5 * sin (t * blinkSpeed_spec i + blinkPhase_spec i)).

(** A colour is brown-toned when red dominates green and green dominates
    blue, as in the trunk colour [(0.4, 0.22, 0.1)]. *)
Definition brown_toned (c : vec3) : Prop :=
  cr c > cg c /\ cg c > cb c /\ cb c > 0.

(** A colour is green-toned when green dominates red and blue. *)
Definition green_toned (c : vec3) : Prop := cg c > cr c /\ cg c > cb c.

(** The colour the edge-glow stage adds to [finalColor]. *)
Definition edge_glow_contribution (acc : Acc) : vec3 :=
  let c := finalColor (edge_glow acc) in
  Vec3 (cr c - cr (finalColor acc)) (cg c - cg (finalColor acc))
       (cb c - cb (finalColor acc)).

(** The set-up locals at three pixels, time 0, resolution 200 x 280. *)
Definition frame_center_low : Frame :=
  MkFrame (Vec2 0.5 0.20) (200 / 280) (Vec2 0 (-0.15)) 0 0 0.
Definition frame_corner : Frame :=
  MkFrame (Vec2 0.02 0.02) (200 / 280) (Vec2 (-12 / 35) (-0.33)) 0 0 0.
Definition frame_trunk : Frame :=
  MkFrame (Vec2 0.5 0.09) (200 / 280) (Vec2 0 (-0.26)) 0 0 0.

(** The foliage colour layer 1 computes at the pixel (0.5, 0.20), time 0. *)
Definition shade_center_low : R := 0.8 * (0.85 + 0.15 * (9 / 28)).
Definition green_center_low : vec3 :=
  Vec3 0 (0.18 * (1 - shade_center_low) + 0.45 * shade_center_low + 0.075)
         (0.1 * (1 - shade_center_low) + 0.25 * shade_center_low + 0.04).

(** The trunk colour at the pixel (0.5, 0.09), time 0. *)
Definition brown_trunk : vec3 := Vec3 0.28 0.154 0.07.

End Spec.

(* ================================================================== *)
(** * christmas_tree.cpp: the vertex shader and the quad it is run on *)
(* ================================================================== *)

Module VertexShader.
Import GLSL.
Open Scope R_scope.

(** The outputs of the vertex shader: [gl_Position] and [fragCoord]. *)
Record Out := MkOut {
  gl_Position : R * R * R * R;
  fragCoord : vec2
}.

(** [void main()] of [vertexShaderSource]. *)
Definition main (aPos : vec2) : Out :=
  MkOut (vx aPos, vy aPos, 0.0, 1.0)
        (Vec2 ((vx aPos + 1.0) * 0.5) ((vy aPos + 1.0) * 0.5)).



End VertexShader.

(* ================================================================== *)
(** * parallax.cpp: colours, terminal size and output *)
(* ================================================================== *)

Module Terminal.
Import Starfield.
Open Scope Z_scope.

(** [std::to_string(int)]: the decimal digits, with a minus sign for a
    negative number. *)
Definition to_string (z : Z) : string := NilZero.string_of_int (Z.to_int z).

(** The escape character [\x1b]. *)
Definition esc : string := String (ascii_of_nat 27) EmptyString.

(** The [switch] of [get_color_sequence]. *)
Definition base_color (type brightness : Z) : Z * Z * Z :=
  match type with
  | 0 => (wrap (40 + brightness),
          wrap (180 + Z.quot brightness 2),
          wrap (220 + Z.quot brightness 3))              (* Cyan *)
  | 1 => (wrap (180 + Z.quot brightness 2),
          wrap (50 + Z.quot brightness 2),
          wrap (180 + Z.quot brightness 2))              (* Magenta *)
  | 2 => (wrap (200 + Z.quot brightness 3),
          wrap (180 + Z.quot brightness 3),
          wrap (40 + Z.quot brightness 3))               (* Yellow *)
  | 3 => (wrap (40 + Z.quot brightness 2),
          wrap (180 + Z.quot brightness 2),
          wrap (80 + Z.quot brightness 2))               (* Green *)
  | 4 => (wrap (220 + Z.quot brightness 4),
          wrap (120 + Z.quot brightness 3),
          wrap (30 + Z.quot brightness 4))               (* Orange *)
  | 5 => (wrap (60 + Z.quot brightness 2),
          wrap (100 + Z.quot brightness 2),
          wrap (200 + Z.quot brightness 3))              (* Blue *)
  | 6 => (wrap (160 + Z.quot brightness 2),
          wrap (170 + Z.quot brightness 2),
          wrap (190 + Z.quot brightness 2))              (* White *)
  | 7 => (wrap (200 + Z.quot brightness 3),
          wrap (50 + Z.quot brightness 3),
          wrap (60 + Z.quot brightness 3))               (* Red *)
  | _ => (200, 200, 200)
  end.

(** [if(r>255) r=255; if(g>255) g=255; if(b>255) b=255;] *)
Definition cap (v : Z) : Z := if 255 <? v then 255 else v.

(** The three numbers [get_color_sequence] prints. *)
Definition color_rgb (type brightness : Z) : Z * Z * Z :=
  let '(r, g, b) := base_color type brightness in
  (cap r, cap g, cap b).

(** [std::string get_color_sequence(int type, int brightness)]. *)
Definition get_color_sequence (type brightness : Z) : string :=
  let '(r, g, b) := color_rgb type brightness in
  (esc ++ "[38;2;" ++ to_string r ++ ";" ++ to_string g ++ ";"
       ++ to_string b ++ "m")%string.

Definition symbol_char (s : Symbol) : ascii :=
  match s with
  | Asterisk => "*"%char
  | Plus => "+"%char
  | Dot => "."%char
  end.

(** The body of the output loop of [main], for one star. *)
Definition emit_star (s : Star) : string :=
  (esc ++ "[" ++ to_string (y s) ++ ";" ++ to_string (x s) ++ "H"
       ++ get_color_sequence (color_type s) (brightness s)
       ++ String (symbol_char (symbol s)) EmptyString)%string.

(** Everything [main] writes to [std::cout]: save cursor, the stars,
    reset colour and restore cursor. *)
Definition render (stars : list Star) : string :=
  (esc ++ "[s" ++ String.concat "" (map emit_star stars)
       ++ esc ++ "[0m" ++ esc ++ "[u")%string.

Section Program.

Variable Rng : Type.
Variable draw : Z -> Z -> Rng -> Z * Rng.

(** [std::atoi], from the C library. *)
Variable atoi : string -> Z.

(** The head of [main]: the defaults, then the environment variables
    [COLUMNS] and [LINES] when they are set, then the arguments when they
    are given.  [argv] holds the program name first. *)
Definition terminal_size (env_cols env_rows : option string)
    (argv : list string) : Z * Z :=
  let cols := 80 in
  let rows := 24 in
  let cols := match env_cols with Some s => atoi s | None => cols end in
  let rows := match env_rows with Some s => atoi s | None => rows end in
  let argc := Z.of_nat (List.length argv) in
  let cols := if 1 <? argc then atoi (nth 1 argv EmptyString) else cols in
  let rows := if 2 <? argc then atoi (nth 2 argv EmptyString) else rows in
  (cols, rows).

(** What a run with terminal size [cols] x [rows] writes. *)
Definition run (cols rows : Z) (g : Rng) : Outcome string :=
  match paint draw cols rows g with
  | Done (stars, _) => Done (render stars)
  | EmptyRange lo hi => EmptyRange lo hi
  end.

(** [int main(int argc, char* argv[])]. *)
Definition main (env_cols env_rows : option string) (argv : list string)
    (g : Rng) : Outcome string :=
  let '(cols, rows) := terminal_size env_cols env_rows argv in
  run cols rows g.

End Program.

Arguments run {Rng} draw cols rows g.
Arguments main {Rng} draw atoi env_cols env_rows argv g.

End Terminal.

(* ================================================================== *)
(** * Vocabulary of the colour invariants *)
(* ================================================================== *)

Module Colour.
Import GLSL.
Open Scope R_scope.


End Colour.

(* ================================================================== *)
(** * Facts about the GLSL built-ins *)
(* ================================================================== *)

Module GLSLFacts.
Import GLSL.
Open Scope R_scope.

Lemma ltb_true (x y : R) : ltb x y = true <-> x < y.
Proof. unfold ltb; destruct (Rlt_dec x y); split; intros; try easy. Qed.

Lemma ltb_false (x y : R) : ltb x y = false <-> y <= x.
Proof.
  unfold ltb; destruct (Rlt_dec x y); split; intros; try easy; lra.
Qed.

Lemma gtb_true (x y : R) : gtb x y = true <-> x > y.
Proof. unfold gtb; rewrite ltb_true; lra. Qed.

Lemma gtb_false (x y : R) : gtb x y = false <-> x <= y.
Proof. unfold gtb; rewrite ltb_false; lra. Qed.

Lemma clamp01_range (t : R) : 0 <= clamp t 0 1 <= 1.
Proof.
  unfold clamp, Rmin, Rmax.
  destruct (Rle_dec t 0); destruct (Rle_dec _ 1); lra.
Qed.

Lemma clamp01_low (t : R) : t <= 0 -> clamp t 0 1 = 0.
Proof.
  intros H; unfold clamp, Rmin, Rmax.
  destruct (Rle_dec t 0); destruct (Rle_dec _ 1); lra.
Qed.

Lemma clamp01_high (t : R) : 1 <= t -> clamp t 0 1 = 1.
Proof.
  intros H; unfold clamp, Rmin, Rmax.
  destruct (Rle_dec t 0); destruct (Rle_dec _ 1); lra.
Qed.

Lemma clamp01_mono (s t : R) : s <= t -> clamp s 0 1 <= clamp t 0 1.
Proof.
  intros H; unfold clamp, Rmin, Rmax.
  destruct (Rle_dec s 0); destruct (Rle_dec t 0);
    repeat match goal with |- context [Rle_dec ?a ?b] => destruct (Rle_dec a b) end;
    lra.
Qed.

Lemma hermite_0 : hermite 0 = 0.
Proof. unfold hermite; lra. Qed.

Lemma hermite_1 : hermite 1 = 1.
Proof. unfold hermite; lra. Qed.

Lemma hermite_range (t : R) : 0 <= t <= 1 -> 0 <= hermite t <= 1.
Proof.
  intros [H0 H1]; unfold hermite; split.
  - apply Rmult_le_pos; [apply Rmult_le_pos|]; lra.
  - assert (0 <= (1 - t) * (1 - t) * (1 + 2 * t)).
    { apply Rmult_le_pos; [apply Rmult_le_pos|]; lra. }
    lra.
Qed.

Lemma hermite_mono (s t : R) : 0 <= s -> s <= t -> t <= 1 -> hermite s <= hermite t.
Proof.
  intros H0 Hst H1; unfold hermite.
  assert (E : t * t * (3 - 2 * t) - s * s * (3 - 2 * s)
              = (t - s) * (3 * (t + s) - 2 * (t * t + t * s + s * s))) by ring.
  assert (0 <= 3 * (t + s) - 2 * (t * t + t * s + s * s)) by nra.
  assert (0 <= (t - s) * (3 * (t + s) - 2 * (t * t + t * s + s * s))).
  { apply Rmult_le_pos; lra. }
  lra.
Qed.

Lemma smoothstep_range (e0 e1 x : R) : 0 <= smoothstep e0 e1 x <= 1.
Proof. unfold smoothstep; apply hermite_range, clamp01_range. Qed.

(** Falling edge ([edge1 < edge0]): nothing at or beyond [edge0]. *)
Lemma smoothstep_falling_out (e0 e1 x : R) :
  e1 < e0 -> e0 <= x -> smoothstep e0 e1 x = 0.
Proof.
  intros He Hx; unfold smoothstep.
  rewrite clamp01_low; [apply hermite_0|].
  replace ((x - e0) / (e1 - e0)) with (- ((x - e0) / (e0 - e1))) by (field; lra).
  assert (0 <= (x - e0) / (e0 - e1)).
  { apply Rmult_le_pos; [lra|]. left; apply Rinv_0_lt_compat; lra. }
  lra.
Qed.

(** Falling edge: full value at or inside [edge1]. *)
Lemma smoothstep_falling_in (e0 e1 x : R) :
  e1 < e0 -> x <= e1 -> smoothstep e0 e1 x = 1.
Proof.
  intros He Hx; unfold smoothstep.
  rewrite clamp01_high; [apply hermite_1|].
  replace ((x - e0) / (e1 - e0)) with ((e0 - x) / (e0 - e1)) by (field; lra).
  apply (Rmult_le_reg_r (e0 - e1)); [lra|].
  unfold Rdiv; rewrite Rmult_assoc, Rinv_l; lra.
Qed.

(** Rising edge ([edge0 < edge1]). *)
Lemma smoothstep_rising_out (e0 e1 x : R) :
  e0 < e1 -> x <= e0 -> smoothstep e0 e1 x = 0.
Proof.
  intros He Hx; unfold smoothstep.
  rewrite clamp01_low; [apply hermite_0|].
  replace ((x - e0) / (e1 - e0)) with (- ((e0 - x) / (e1 - e0))) by (field; lra).
  assert (0 <= (e0 - x) / (e1 - e0)).
  { apply Rmult_le_pos; [lra|]. left; apply Rinv_0_lt_compat; lra. }
  lra.
Qed.

Lemma smoothstep_rising_in (e0 e1 x : R) :
  e0 < e1 -> e1 <= x -> smoothstep e0 e1 x = 1.
Proof.
  intros He Hx; unfold smoothstep.
  rewrite clamp01_high; [apply hermite_1|].
  apply (Rmult_le_reg_r (e1 - e0)); [lra|].
  unfold Rdiv; rewrite Rmult_assoc, Rinv_l; lra.
Qed.

Lemma smoothstep_rising_mono (e0 e1 x x' : R) :
  e0 < e1 -> x <= x' -> smoothstep e0 e1 x <= smoothstep e0 e1 x'.
Proof.
  intros He Hx; unfold smoothstep.
  apply hermite_mono; try apply clamp01_range.
  apply clamp01_mono.
  unfold Rdiv; apply Rmult_le_compat_r; [|lra].
  left; apply Rinv_0_lt_compat; lra.
Qed.

Lemma pow_nat (x : R) (n : nat) : 0 <= x -> (0 < n)%nat -> pow x (INR n) = x ^ n.
Proof.
  intros Hx Hn; unfold pow.
  destruct (Req_dec_T x 0) as [->|Hne].
  - destruct n; [lia|]. simpl; ring.
  - apply Rpower_pow; lra.
Qed.

Lemma pow_2 (x : R) : 0 <= x -> pow x 2.0 = x * x.
Proof.
  intros Hx. replace 2.0 with (INR 2) by (simpl; lra).
  rewrite pow_nat; [simpl; ring | assumption | lia].
Qed.

Lemma pow_4 (x : R) : 0 <= x -> pow x 4.0 = x * x * (x * x).
Proof.
  intros Hx. replace 4.0 with (INR 4) by (simpl; lra).
  rewrite pow_nat; [simpl; ring | assumption | lia].
Qed.

Lemma length_nonneg (v : vec2) : 0 <= length v.
Proof. apply sqrt_pos. Qed.

Lemma length_ge_x (v : vec2) : Rabs (vx v) <= length v.
Proof.
  unfold length. rewrite <- (sqrt_Rsqr_abs (vx v)).
  apply sqrt_le_1_alt. unfold Rsqr. nra.
Qed.

Lemma length_ge_y (v : vec2) : Rabs (vy v) <= length v.
Proof.
  unfold length. rewrite <- (sqrt_Rsqr_abs (vy v)).
  apply sqrt_le_1_alt. unfold Rsqr. nra.
Qed.

Lemma length_on_axis (y : R) : 0 <= y -> length (Vec2 0 y) = y.
Proof.
  intros H; unfold length; simpl.
  replace (0 * 0 + y * y) with (y * y) by ring. now apply sqrt_square.
Qed.

Lemma length_le_of_sq (v : vec2) (r : R) :
  0 <= r -> vx v * vx v + vy v * vy v <= r * r -> length v <= r.
Proof.
  intros Hr H. unfold length. rewrite <- (sqrt_square r) by exact Hr.
  now apply sqrt_le_1_alt.
Qed.

Lemma mix3_0 (a b : vec3) : mix3 a b 0 = a.
Proof. destruct a; unfold mix3, mix; simpl; f_equal; ring. Qed.

Lemma add3_scale_0 (a b : vec3) : add3 a (scale3 b 0) = a.
Proof. destruct a; unfold add3, scale3; simpl; f_equal; ring. Qed.

Lemma Rmax_range (a b lo hi : R) :
  lo <= a <= hi -> lo <= b <= hi -> lo <= Rmax a b <= hi.
Proof. intros Ha Hb; unfold Rmax; destruct (Rle_dec a b); lra. Qed.

Lemma Rmax_absorb_0 (a : R) : 0 <= a -> Rmax a 0 = a.
Proof. intros H; unfold Rmax; destruct (Rle_dec a 0); lra. Qed.

Lemma sq_abs_sin_range (a : R) : 0 <= pow (Rabs (sin a)) 2.0 <= 1.
Proof.
  rewrite pow_2 by apply Rabs_pos.
  pose proof (SIN_bound a) as Hs. pose proof (Rabs_pos (sin a)) as Hp.
  assert (Rabs (sin a) <= 1) by (apply Rabs_le; lra).
  nra.
Qed.

Lemma fourth_abs_sin_range (a : R) : 0 <= pow (Rabs (sin a)) 4.0 <= 1.
Proof.
  rewrite pow_4 by apply Rabs_pos.
  pose proof (SIN_bound a) as Hs. pose proof (Rabs_pos (sin a)) as Hp.
  assert (Rabs (sin a) <= 1) by (apply Rabs_le; lra).
  assert (0 <= Rabs (sin a) * Rabs (sin a) <= 1) by nra.
  nra.
Qed.

Lemma sign_range (x : R) : -1 <= sign x <= 1.
Proof. unfold sign; destruct (Rlt_dec 0 x); [|destruct (Rlt_dec x 0)]; lra. Qed.

Ltac abs_bound := unfold Rabs; destruct (Rcase_abs _); simpl in *; lra.

End GLSLFacts.

(* ================================================================== *)
(** * The stages of the shader *)
(* ================================================================== *)

Module StageFacts.
Import GLSL.
Import SceneShader.
Import GLSLFacts.
Import Spec.
Open Scope R_scope.

Lemma in_band_iff (lo hi : R) (q : vec2) :
  in_band lo hi q = true <-> lo < vy q < hi.
Proof.
  unfold in_band. rewrite andb_true_iff, gtb_true, ltb_true. lra.
Qed.

Lemma hash_0 : hash 0 = 0.
Proof. unfold hash. rewrite sin_0, Rmult_0_l. apply fp_R0. Qed.

Lemma setup_rotPhase (res fragCoord : vec2) (t : R) :
  -1 <= rotPhase (setup res fragCoord t) <= 1.
Proof. simpl. apply SIN_bound. Qed.

(** ** Trunk and layers keep alpha in [0,1] *)

Lemma trunk_alpha (F : Frame) (acc : Acc) :
  0 <= finalAlpha acc <= 1 -> 0 <= finalAlpha (trunk F acc) <= 1.
Proof.
  intros H; unfold trunk.
  destruct (_ && _); [apply smoothstep_range | exact H].
Qed.

Lemma foliage_layer_alpha (lo hi w : R) (F : Frame) (acc : Acc) :
  0 <= finalAlpha acc <= 1 ->
  0 <= finalAlpha (foliage_layer lo hi w F acc) <= 1.
Proof.
  intros H; unfold foliage_layer.
  destruct (in_band lo hi (p F)); [|exact H].
  destruct (ltb _ _); [|exact H].
  simpl. apply Rmax_range; [exact H | apply smoothstep_range].
Qed.

(** ** Lights *)

(** [pow(x, 2.0)] of the loop body is a square, its base being in [0,1]. *)
Lemma blink0_square (F : Frame) (i : Z) :
  blink0 (light F i)
  = 0.3 + 0.7 * Rsqr (0.5 + 0.5 * sin (time F * blinkSpeed_spec i
                                        + blinkPhase_spec i)).
Proof.
  unfold blinkSpeed_spec, blinkPhase_spec; simpl.
  replace 5.0 with 5 by lra.
  rewrite pow_2; [reflexivity|].
  match goal with |- context [sin ?a] => pose proof (SIN_bound a) end. lra.
Qed.

Lemma blink0_range (F : Frame) (i : Z) : 0.3 <= blink0 (light F i) <= 1.
Proof.
  rewrite blink0_square. unfold Rsqr.
  match goal with |- context [sin ?a] => pose proof (SIN_bound a) end. nra.
Qed.

Lemma blink_range (F : Frame) (i : Z) :
  -1 <= rotPhase F <= 1 -> 0 <= blink (light F i) <= 1.
Proof.
  intros Hr. pose proof (blink0_range F i) as Hb.
  change (blink (light F i))
    with (blink0 (light F i) * (0.3 + 0.7 * sideVisibility (light F i))).
  assert (Hs : 0 <= sideVisibility (light F i) <= 1).
  { simpl.
    match goal with |- context [sign ?a] => pose proof (sign_range a) end.
    nra. }
  nra.
Qed.

Lemma add_light_alpha (F : Frame) (i : Z) (acc : Acc) :
  -1 <= rotPhase F <= 1 ->
  0 <= finalAlpha acc <= 1.25 ->
  0 <= finalAlpha (add_light (light F i) acc) <= 1.25.
Proof.
  intros Hr Ha. unfold add_light; cbn [finalAlpha].
  apply Rmax_range; [exact Ha|].
  pose proof (blink_range F i Hr) as Hb.
  change (lightCore (light F i))
    with (smoothstep 0.025 0.005 (d (light F i)) * blink (light F i)).
  change (lightGlow (light F i))
    with (smoothstep 0.07 0.01 (d (light F i)) * blink (light F i) * 0.5).
  pose proof (smoothstep_range 0.025 0.005 (d (light F i))).
  pose proof (smoothstep_range 0.07 0.01 (d (light F i))).
  nra.
Qed.

Lemma lights_alpha (F : Frame) (acc : Acc) :
  -1 <= rotPhase F <= 1 ->
  0 <= finalAlpha acc <= 1.25 ->
  0 <= finalAlpha (lights F acc) <= 1.25.
Proof.
  intros Hr. unfold lights. revert acc.
  induction light_indices as [|i l IH]; intros acc Ha; simpl; [exact Ha|].
  apply IH. now apply add_light_alpha.
Qed.

(** ** Star *)

Lemma starPulse_range (F : Frame) : 0.6 <= starPulse (star_locals F) <= 1.
Proof. simpl. pose proof (SIN_bound (time F * 3.0)). lra. Qed.

Lemma starShape_eq (F : Frame) :
  starShape (star_locals F)
  = (0.025 + 0.015 * pow (Rabs (sin (starAngle (star_locals F) * 2.5 + 0.5))) 2.0)
    * starPulse (star_locals F).
Proof. reflexivity. Qed.

Lemma starShape_range (F : Frame) :
  0.025 * starPulse (star_locals F) <= starShape (star_locals F)
  <= 0.04 * starPulse (star_locals F).
Proof.
  rewrite starShape_eq. pose proof (starPulse_range F).
  pose proof (sq_abs_sin_range (starAngle (star_locals F) * 2.5 + 0.5)). nra.
Qed.

Lemma starRays_nonneg (F : Frame) : 0 <= starRays (star_locals F).
Proof.
  set (S := star_locals F).
  pose proof (starPulse_range F) as Hp. fold S in Hp.
  change (starRays S)
    with (smoothstep 0.12 0.02 (starDist S) * rays S * 0.4 * starPulse S).
  pose proof (smoothstep_range 0.12 0.02 (starDist S)).
  assert (0 <= rays S <= 1) by apply fourth_abs_sin_range.
  assert (0 <= smoothstep 0.12 0.02 (starDist S) * rays S) by nra.
  nra.
Qed.

Lemma star_alpha_term (F : Frame) :
  let S := star_locals F in
  0 <= star S + starGlow S * 0.8 + starRays S * 0.5 <= 1.68.
Proof.
  intros S. pose proof (starPulse_range F) as Hp. fold S in Hp.
  change (star S) with (smoothstep (starShape S) (starShape S * 0.3) (starDist S)).
  change (starGlow S) with (smoothstep 0.1 0.0 (starDist S) * 0.6 * starPulse S).
  change (starRays S)
    with (smoothstep 0.12 0.02 (starDist S) * rays S * 0.4 * starPulse S).
  pose proof (smoothstep_range (starShape S) (starShape S * 0.3) (starDist S)).
  pose proof (smoothstep_range 0.1 0.0 (starDist S)).
  pose proof (smoothstep_range 0.12 0.02 (starDist S)).
  assert (Hr : 0 <= rays S <= 1) by apply fourth_abs_sin_range.
  assert (0 <= smoothstep 0.12 0.02 (starDist S) * rays S <= 1) by nra.
  nra.
Qed.

Lemma apply_star_alpha (F : Frame) (acc : Acc) :
  0 <= finalAlpha acc <= 1.25 ->
  0 <= finalAlpha (apply_star (star_locals F) acc) <= 1.68.
Proof.
  intros Ha. unfold apply_star; cbn [finalAlpha].
  apply Rmax_range; [lra | apply star_alpha_term].
Qed.

(** ** Edge glow, vignette, and the whole accumulation *)

Lemma edge_glow_alpha (acc : Acc) : finalAlpha (edge_glow acc) = finalAlpha acc.
Proof. unfold edge_glow. destruct (_ && _); reflexivity. Qed.

Lemma vignette_range (q : vec2) : 0 <= vignette q <= 1.
Proof.
  unfold vignette.
  pose proof (smoothstep_range 0.4 0.7 (length (sub2s q 0.5))). lra.
Qed.

Lemma shapes_alpha (F : Frame) :
  -1 <= rotPhase F <= 1 -> 0 <= finalAlpha (shapes F) <= 1.68.
Proof.
  intros Hr. unfold shapes.
  apply apply_star_alpha.
  assert (H3 : 0 <= finalAlpha
     (layer3 F (layer2 F (layer1 F (trunk F (MkAcc (Vec3 0 0 0) 0))))) <= 1).
  { repeat apply foliage_layer_alpha. apply trunk_alpha. simpl; lra. }
  apply lights_alpha; [exact Hr | lra].
Qed.

(** ** Stages that leave the accumulator as it is *)

(** A light at distance 0.07 or more adds nothing. *)
Lemma add_light_far (F : Frame) (i : Z) (acc : Acc) :
  0 <= finalAlpha acc -> 0.07 <= d (light F i) ->
  add_light (light F i) acc = acc.
Proof.
  intros Ha Hd. unfold add_light.
  change (lightCore (light F i))
    with (smoothstep 0.025 0.005 (d (light F i)) * blink (light F i)).
  change (lightGlow (light F i))
    with (smoothstep 0.07 0.01 (d (light F i)) * blink (light F i) * 0.5).
  rewrite !smoothstep_falling_out by lra.
  replace (0 * blink (light F i) * 0.5) with 0 by ring.
  rewrite Rmult_0_l, mix3_0, add3_scale_0.
  destruct acc as [c a]; simpl in *. f_equal.
  replace (0 + 0 * 0.5) with 0 by ring. now apply Rmax_absorb_0.
Qed.

Lemma lights_far (F : Frame) (acc : Acc) :
  0 <= finalAlpha acc ->
  (forall i, In i light_indices -> 0.07 <= d (light F i)) ->
  lights F acc = acc.
Proof.
  intros Ha. unfold lights.
  induction light_indices as [|i l IH]; intros H; simpl; [reflexivity|].
  rewrite add_light_far; [apply IH | exact Ha | apply H; now left].
  intros j Hj; apply H; now right.
Qed.

(** The star at distance 0.12 or more adds nothing. *)
Lemma apply_star_far (F : Frame) (acc : Acc) :
  0 <= finalAlpha acc -> 0.12 <= starDist (star_locals F) ->
  apply_star (star_locals F) acc = acc.
Proof.
  intros Ha Hd. set (S := star_locals F) in *.
  pose proof (starPulse_range F) as Hp. pose proof (starShape_range F) as Hs.
  fold S in Hp, Hs.
  assert (H1 : star S = 0).
  { change (star S)
      with (smoothstep (starShape S) (starShape S * 0.3) (starDist S)).
    apply smoothstep_falling_out; lra. }
  assert (H2 : starGlow S = 0).
  { change (starGlow S) with (smoothstep 0.1 0.0 (starDist S) * 0.6 * starPulse S).
    rewrite smoothstep_falling_out by lra. ring. }
  assert (H3 : starRays S = 0).
  { change (starRays S)
      with (smoothstep 0.12 0.02 (starDist S) * rays S * 0.4 * starPulse S).
    rewrite smoothstep_falling_out by lra. ring. }
  unfold apply_star. rewrite H1, H2, H3.
  replace (0 + 0) with 0 by ring. rewrite !mix3_0.
  destruct acc as [c a]; simpl in *. f_equal.
  replace (0 + 0 * 0.8 + 0 * 0.5) with 0 by ring. now apply Rmax_absorb_0.
Qed.

Lemma star_far_below (F : Frame) (acc : Acc) :
  0 <= finalAlpha acc -> vy (p F) <= 0.26 ->
  apply_star (star_locals F) acc = acc.
Proof.
  intros Ha Hy. apply apply_star_far; [exact Ha|].
  eapply Rle_trans; [|apply (length_ge_y (sub2 (p F) starPos))].
  simpl. abs_bound.
Qed.

Lemma trunk_miss (F : Frame) (acc : Acc) :
  vy (p F) <= trunkBottom \/ trunkTop <= vy (p F)
  \/ trunkWidth <= Rabs (vx (p F)) ->
  trunk F acc = acc.
Proof.
  intros H. unfold trunk.
  assert (E : gtb (vy (p F)) trunkBottom && ltb (vy (p F)) trunkTop
              && ltb (Rabs (vx (p F))) trunkWidth = false).
  { rewrite !andb_false_iff, gtb_false, !ltb_false. tauto. }
  now rewrite E.
Qed.

Lemma foliage_layer_miss (lo hi w : R) (F : Frame) (acc : Acc) :
  vy (p F) <= lo \/ hi <= vy (p F) -> foliage_layer lo hi w F acc = acc.
Proof.
  intros H. unfold foliage_layer.
  assert (E : in_band lo hi (p F) = false).
  { unfold in_band. rewrite andb_false_iff, gtb_false, ltb_false. tauto. }
  now rewrite E.
Qed.

(** The distance to light [i] is at least the distance along either axis;
    the sway moves the light by at most 0.015 along x. *)
Lemma light_d_ge_x (F : Frame) (i : Z) :
  Rabs (vx (p F) - vx (lightPos (light F i))) <= d (light F i).
Proof. apply (length_ge_x (sub2 (p F) (lightPos (light F i)))). Qed.

Lemma light_d_ge_y (F : Frame) (i : Z) :
  Rabs (vy (p F) - vy (at2 lightPositions i)) <= d (light F i).
Proof. apply (length_ge_y (sub2 (p F) (lightPos (light F i)))). Qed.

Lemma lightPos_x_range (F : Frame) (i : Z) :
  vx (at2 lightPositions i) - 0.015 <= vx (lightPos (light F i))
  <= vx (at2 lightPositions i) + 0.015.
Proof. simpl. pose proof (SIN_bound (rotAngle F + IZR i * 0.5)). lra. Qed.

Ltac light_is_far F i :=
  first
    [ solve [ eapply Rle_trans; [|apply light_d_ge_y]; simpl; abs_bound ]
    | solve [ eapply Rle_trans; [|apply light_d_ge_x];
              pose proof (lightPos_x_range F i);
              generalize dependent (vx (lightPos (light F i)));
              intros; simpl in *; abs_bound ] ].

Ltac every_light_is_far :=
  let i := fresh "i" in
  let Hi := fresh "Hi" in
  intros i Hi; simpl in Hi;
  repeat (destruct Hi as [<-|Hi];
          [match goal with |- _ <= d (light ?F ?i) => light_is_far F i end|]);
  contradiction.

Lemma edge_glow_opaque (c : vec3) : edge_glow (MkAcc c 1) = MkAcc c 1.
Proof.
  unfold edge_glow; simpl.
  assert (E : ltb 1 0.95 = false) by (rewrite ltb_false; lra).
  now rewrite E, andb_false_r.
Qed.

Lemma edge_glow_clear (c : vec3) : edge_glow (MkAcc c 0) = MkAcc c 0.
Proof.
  unfold edge_glow; simpl.
  assert (E : gtb 0 0.1 = false) by (rewrite gtb_false; lra).
  now rewrite E.
Qed.

End StageFacts.

(* ================================================================== *)
(** * The foliage bands *)
(* ================================================================== *)

Module Layers.
Import GLSL.
Import SceneShader.
Import GLSLFacts.
Import StageFacts.
Open Scope R_scope.

(** C2, refuted: the outer tests of layer 1 and of layer 2 both hold at the
    centred coordinate (0, 0), so two of the three bands overlap there. *)
Lemma layers_1_2_overlap :
  in_band layer1Bottom layer1Top (Vec2 0 0) = true /\
  in_band layer2Bottom layer2Top (Vec2 0 0) = true.
Proof.
  rewrite !in_band_iff; simpl.
  unfold layer2Top, layer2Bottom, layer1Top, layer1Bottom. lra.
Qed.

(** C2, as amended: only the bands of layers 1 and 3 are disjoint.  The
    bands of layers 1 and 2 both contain [p] exactly when
    [-0.09 < p.y < 0.04], those of layers 2 and 3 exactly when
    [0.05 < p.y < 0.17]; hence never all three at once. *)
Theorem layer_bands (q : vec2) :
  ~ (in_band layer1Bottom layer1Top q = true /\
     in_band layer3Bottom layer3Top q = true) /\
  (in_band layer1Bottom layer1Top q = true /\
   in_band layer2Bottom layer2Top q = true <-> -0.09 < vy q < 0.04) /\
  (in_band layer2Bottom layer2Top q = true /\
   in_band layer3Bottom layer3Top q = true <-> 0.05 < vy q < 0.17).
Proof.
  rewrite !in_band_iff.
  unfold layer3Top, layer3Bottom, layer2Top, layer2Bottom,
         layer1Top, layer1Bottom.
  repeat split; try lra.
Qed.

End Layers.

(* ================================================================== *)
(** * The blink pattern of the lights *)
(* ================================================================== *)

Module Blink.
Import GLSL.
Import SceneShader.
Import GLSLFacts.
Import Spec.
Import StageFacts.
Open Scope R_scope.

(** C3, refuted: at light 0 and time 0 the argument of the sine is 0, the
    loop body computes [0.3 + 0.7 * 0.5^2 = 0.475], and the formula with
    [sin^2] gives [0.3]. *)
Lemma blink_not_sin2 :
  blink0 (light (setup resolution (Vec2 0.5 0.5) 0) 0) = 0.475 /\
  blink_sin2 0 0 = 0.3 /\
  blink0 (light (setup resolution (Vec2 0.5 0.5) 0) 0) <> blink_sin2 0 0.
Proof.
  assert (E0 : 0 * blinkSpeed_spec 0 + blinkPhase_spec 0 = 0).
  { unfold blinkPhase_spec. rewrite hash_0. ring. }
  assert (E1 : blink0 (light (setup resolution (Vec2 0.5 0.5) 0) 0) = 0.475).
  { rewrite blink0_square.
    change (time (setup resolution (Vec2 0.5 0.5) 0)) with 0.
    rewrite E0, sin_0. unfold Rsqr. lra. }
  assert (E2 : blink_sin2 0 0 = 0.3).
  { unfold blink_sin2. rewrite E0, sin_0. unfold Rsqr. lra. }
  rewrite E1, E2. repeat split; lra.
Qed.

(** C3, as amended: for every light index [i] in [0,12) and every time
    [t], the blink brightness before the side-visibility factor is
    [0.3 + 0.7 * (0.5 + 0.5 * sin(t*blinkSpeed + blinkPhase))^2], with
    [blinkPhase = i*0.8 + hash(i)*6.28] and
    [blinkSpeed = 2.0 + hash(i+5)*2.0]. *)
Theorem blink_formula (fragCoord : vec2) (t : R) (i : Z) :
  (0 <= i < 12)%Z ->
  let L := light (setup resolution fragCoord t) i in
  blinkPhase L = IZR i * 0.8 + hash (IZR i) * 6.28 /\
  blinkSpeed L = 2.0 + hash (IZR i + 5) * 2.0 /\
  blink0 L = 0.3 + 0.7 * Rsqr (0.5 + 0.5 * sin (t * blinkSpeed L + blinkPhase L)).
Proof.
  intros _ L. split; [reflexivity|]. split.
  - unfold L; simpl. replace 5.0 with 5 by lra. reflexivity.
  - unfold L. rewrite blink0_square.
    unfold blinkSpeed_spec, blinkPhase_spec; simpl.
    replace 5.0 with 5 by lra. reflexivity.
Qed.

Lemma blink_formula_witness :
  blink0 (light (setup resolution (Vec2 0.5 0.5) 0) 0)
  = 0.3 + 0.7 * Rsqr (0.5 + 0.5 * sin (0 * (2.0 + hash (0 + 5) * 2.0)
                                        + (0 * 0.8 + hash 0 * 6.28))).
Proof.
  assert (Hi : (0 <= 0 < 12)%Z) by lia.
  destruct (blink_formula (Vec2 0.5 0.5) 0 0 Hi) as (Hp & Hs & Hb).
  rewrite Hb, Hs, Hp. reflexivity.
Defined.

(** C5: for every light index [i] in [0,12) and every time [t], the blink
    phase, the blink speed and the blink brightness (before and after the
    side-visibility factor) that the loop body computes are the same at any
    two pixels and resolutions, and are the functions [blinkPhase_spec i],
    [blinkSpeed_spec i] and [blink_half i t] of the index and the time
    alone. *)
Theorem blink_depends_on_index_and_time
    (res1 res2 fragCoord1 fragCoord2 : vec2) (t : R) (i : Z) :
  (0 <= i < 12)%Z ->
  let L1 := light (setup res1 fragCoord1 t) i in
  let L2 := light (setup res2 fragCoord2 t) i in
  blinkPhase L1 = blinkPhase L2 /\
  blinkSpeed L1 = blinkSpeed L2 /\
  blink0 L1 = blink0 L2 /\
  blink L1 = blink L2 /\
  blinkPhase L1 = blinkPhase_spec i /\
  blinkSpeed L1 = blinkSpeed_spec i /\
  blink0 L1 = blink_half i t.
Proof.
  intros _ L1 L2.
  repeat split; try reflexivity.
  - unfold L1, blinkSpeed_spec; simpl. replace 5.0 with 5 by lra. reflexivity.
  - unfold L1. rewrite blink0_square. reflexivity.
Qed.

Lemma blink_depends_on_index_and_time_witness :
  blink (light (setup resolution (Vec2 0.1 0.9) 2) 7)
  = blink (light (setup resolution (Vec2 0.6 0.3) 2) 7).
Proof.
  assert (Hi : (0 <= 7 < 12)%Z) by lia.
  apply (blink_depends_on_index_and_time
           resolution resolution (Vec2 0.1 0.9) (Vec2 0.6 0.3) 2 7 Hi).
Defined.

End Blink.

(* ================================================================== *)
(** * Edge glow, vignette and the range of the output alpha *)
(* ================================================================== *)

Module Output.
Import GLSL.
Import SceneShader.
Import GLSLFacts.
Import Spec.
Import StageFacts.
Open Scope R_scope.

(** C6: the vignette factor [1 - smoothstep(0.4, 0.7, length(uv - 0.5))]
    is 1 at the centre (0.5, 0.5), is 0 at every [uv] at distance 0.7 or
    more from the centre, and does not increase when the distance grows. *)
Theorem vignette_profile (uv1 uv2 : vec2) :
  vignette (Vec2 0.5 0.5) = 1 /\
  (0.7 <= length (sub2s uv1 0.5) -> vignette uv1 = 0) /\
  (length (sub2s uv1 0.5) <= length (sub2s uv2 0.5) ->
   vignette uv2 <= vignette uv1).
Proof.
  unfold vignette. repeat split.
  - rewrite smoothstep_rising_out; [lra | lra |].
    unfold sub2s; simpl. replace (0.5 - 0.5) with 0 by lra.
    rewrite length_on_axis; lra.
  - intros H. rewrite smoothstep_rising_in; lra.
  - intros H.
    pose proof (smoothstep_rising_mono 0.4 0.7 _ _ ltac:(lra) H). lra.
Qed.

Lemma corner_distance : 0.7 <= length (sub2s (Vec2 0 0) 0.5).
Proof.
  unfold length, sub2s; simpl.
  rewrite <- (sqrt_square 0.7) by lra.
  apply sqrt_le_1_alt. lra.
Qed.

Lemma vignette_profile_witness :
  vignette (Vec2 0 0) = 0 /\ vignette (Vec2 0 0) <= vignette (Vec2 0.5 0.5).
Proof.
  destruct (vignette_profile (Vec2 0 0) (Vec2 0 0)) as (_ & H0 & _).
  destruct (vignette_profile (Vec2 0.5 0.5) (Vec2 0 0)) as (_ & _ & Hm).
  split.
  - apply H0, corner_distance.
  - apply Hm. unfold sub2s; simpl. replace (0.5 - 0.5) with 0 by lra.
    rewrite length_on_axis by lra. apply length_nonneg.
Defined.

(** C7: when the accumulated alpha is at most 0.1 or at least 0.95 (0.1
    and 0.95 themselves included) the edge-glow stage changes nothing, so
    its colour contribution is zero; when alpha lies strictly between, it
    adds the tint [(0, 0.27*(1-alpha), 0.15*(1-alpha))], whose green and
    blue components are strictly positive (the red one is 0), and leaves
    alpha as it is. *)
Theorem edge_glow_band (acc : Acc) :
  (finalAlpha acc <= 0.1 \/ 0.95 <= finalAlpha acc ->
   edge_glow acc = acc /\ edge_glow_contribution acc = Vec3 0 0 0) /\
  (0.1 < finalAlpha acc < 0.95 ->
   edge_glow_contribution acc
     = Vec3 0 (0.27 * (1 - finalAlpha acc)) (0.15 * (1 - finalAlpha acc)) /\
   0 < cg (edge_glow_contribution acc) /\
   0 < cb (edge_glow_contribution acc) /\
   finalAlpha (edge_glow acc) = finalAlpha acc).
Proof.
  unfold edge_glow_contribution, edge_glow. split.
  - intros H.
    assert (E : gtb (finalAlpha acc) 0.1 && ltb (finalAlpha acc) 0.95 = false).
    { apply andb_false_iff. rewrite gtb_false, ltb_false. lra. }
    rewrite E. split; [reflexivity|]. f_equal; lra.
  - intros H.
    assert (E : gtb (finalAlpha acc) 0.1 && ltb (finalAlpha acc) 0.95 = true).
    { apply andb_true_iff. rewrite gtb_true, ltb_true. lra. }
    rewrite E. simpl. repeat split; try lra. f_equal; lra.
Qed.

Lemma edge_glow_band_witness :
  edge_glow (MkAcc (Vec3 0 0 0) 0.1) = MkAcc (Vec3 0 0 0) 0.1 /\
  edge_glow (MkAcc (Vec3 0 0 0) 0.95) = MkAcc (Vec3 0 0 0) 0.95 /\
  0 < cg (edge_glow_contribution (MkAcc (Vec3 0 0 0) 0.5)).
Proof.
  repeat split.
  - apply (edge_glow_band (MkAcc (Vec3 0 0 0) 0.1)). simpl; lra.
  - apply (edge_glow_band (MkAcc (Vec3 0 0 0) 0.95)). simpl; lra.
  - apply (edge_glow_band (MkAcc (Vec3 0 0 0) 0.5)). simpl; lra.
Defined.

(** C1, as amended: for every normalized coordinate in [0,1] x [0,1] and
    every time, at resolution 200 x 280, the alpha written to [FragColor]
    lies in [0, 1.68]. *)
Theorem alpha_range (fragCoord : vec2) (t : R) :
  0 <= vx fragCoord <= 1 -> 0 <= vy fragCoord <= 1 ->
  0 <= alpha (main resolution fragCoord t) <= 1.68.
Proof.
  intros _ _. unfold main; cbn [alpha].
  rewrite edge_glow_alpha.
  pose proof (shapes_alpha (setup resolution fragCoord t)
                (setup_rotPhase resolution fragCoord t)) as Hs.
  pose proof (vignette_range (uv (setup resolution fragCoord t))) as Hv.
  nra.
Qed.

Lemma alpha_range_witness :
  0 <= alpha (main resolution (Vec2 0.5 0.5) 0) <= 1.68.
Proof. apply alpha_range; simpl; lra. Defined.

Lemma smoothstep_glow_near : smoothstep 0.1 0.0 0.005 = 0.99275.
Proof.
  unfold smoothstep.
  replace ((0.005 - 0.1) / (0.0 - 0.1)) with 0.95 by lra.
  unfold clamp, Rmin, Rmax.
  destruct (Rle_dec 0.95 0); [lra|]. destruct (Rle_dec 0.95 1); [|lra].
  unfold hermite. lra.
Qed.

(** C1, refuted: at the normalized coordinate (0.5, 0.735), just above the
    star anchor, and time 0, the star body is 1 and the star glow adds
    [0.8 * 0.99275 * 0.6 * 0.8]; the vignette is 1 there, so the alpha
    written to [FragColor] exceeds 1. *)
Lemma alpha_above_one :
  0 <= vx (Vec2 0.5 0.735) <= 1 /\ 0 <= vy (Vec2 0.5 0.735) <= 1 /\
  1.38 < alpha (main resolution (Vec2 0.5 0.735) 0).
Proof.
  split; [simpl; lra|]. split; [simpl; lra|].
  unfold main; cbn [alpha]. rewrite edge_glow_alpha.
  set (F := setup resolution (Vec2 0.5 0.735) 0).
  assert (Hv : vignette (uv F) = 1).
  { unfold vignette. rewrite smoothstep_rising_out; [lra | lra |].
    unfold F, sub2s; simpl. replace (0.5 - 0.5) with 0 by lra.
    rewrite length_on_axis; lra. }
  rewrite Hv, Rmult_1_r.
  unfold shapes, apply_star; cbn [finalAlpha].
  eapply Rlt_le_trans; [|apply Rmax_r].
  set (S := star_locals F).
  assert (Hd : starDist S = 0.005).
  { change (starDist S) with (length (sub2 (p F) starPos)).
    replace (sub2 (p F) starPos) with (Vec2 0 0.005);
      [apply length_on_axis; lra|].
    unfold F, sub2, starPos, resolution, Config.WIDTH, Config.HEIGHT; simpl.
    f_equal; lra. }
  assert (Hp : starPulse S = 0.8).
  { unfold S, F; simpl. rewrite Rmult_0_l, sin_0. lra. }
  pose proof (starShape_range F) as Hsh. fold S in Hsh. rewrite Hp in Hsh.
  assert (Hstar : star S = 1).
  { change (star S)
      with (smoothstep (starShape S) (starShape S * 0.3) (starDist S)).
    rewrite Hd. apply smoothstep_falling_in; lra. }
  assert (Hglow : starGlow S = 0.99275 * 0.6 * 0.8).
  { change (starGlow S) with (smoothstep 0.1 0.0 (starDist S) * 0.6 * starPulse S).
    now rewrite Hd, Hp, smoothstep_glow_near. }
  pose proof (starRays_nonneg F) as Hrays. fold S in Hrays.
  rewrite Hstar, Hglow. lra.
Qed.

End Output.

(* ================================================================== *)
(** * The shader at three pixels, time 0 *)
(* ================================================================== *)

Module Pixels.
Import GLSL.
Import SceneShader.
Import GLSLFacts.
Import Spec.
Import StageFacts.
Open Scope R_scope.

Lemma setup_center_low : setup resolution (Vec2 0.5 0.20) 0 = frame_center_low.
Proof.
  unfold setup, frame_center_low, resolution, sub2, Config.WIDTH, Config.HEIGHT.
  simpl. rewrite Rmult_0_l, sin_0. f_equal. f_equal; lra.
Qed.

Lemma setup_corner : setup resolution (Vec2 0.02 0.02) 0 = frame_corner.
Proof.
  unfold setup, frame_corner, resolution, sub2, Config.WIDTH, Config.HEIGHT.
  simpl. rewrite Rmult_0_l, sin_0. f_equal. f_equal; lra.
Qed.

Lemma setup_trunk : setup resolution (Vec2 0.5 0.09) 0 = frame_trunk.
Proof.
  unfold setup, frame_trunk, resolution, sub2, Config.WIDTH, Config.HEIGHT.
  simpl. rewrite Rmult_0_l, sin_0. f_equal. f_equal; lra.
Qed.

Lemma lights_far_center_low (acc : Acc) :
  0 <= finalAlpha acc -> lights frame_center_low acc = acc.
Proof. intros Ha. apply lights_far; [exact Ha | every_light_is_far]. Qed.

Lemma lights_far_corner (acc : Acc) :
  0 <= finalAlpha acc -> lights frame_corner acc = acc.
Proof. intros Ha. apply lights_far; [exact Ha | every_light_is_far]. Qed.

Lemma lights_far_trunk (acc : Acc) :
  0 <= finalAlpha acc -> lights frame_trunk acc = acc.
Proof. intros Ha. apply lights_far; [exact Ha | every_light_is_far]. Qed.

(** Layer 1 covers the pixel (0.5, 0.20). *)
Lemma layer1_center_low :
  layer1 frame_center_low (MkAcc (Vec3 0 0 0) 0) = MkAcc green_center_low 1.
Proof.
  unfold layer1, foliage_layer.
  assert (Eb : in_band layer1Bottom layer1Top (p frame_center_low) = true).
  { rewrite in_band_iff. unfold layer1Top, layer1Bottom; simpl. lra. }
  rewrite Eb. cbv zeta.
  assert (Eh : (vy (p frame_center_low) - layer1Bottom)
               / (layer1Top - layer1Bottom) = 9 / 28).
  { unfold layer1Top, layer1Bottom; simpl. lra. }
  rewrite Eh.
  assert (Ex : vx (p frame_center_low) = 0) by reflexivity.
  rewrite Ex, Rabs_R0.
  assert (Ew : layer1Width * (1 - 9 / 28) = 0.26 * (19 / 28))
    by (unfold layer1Width; lra).
  rewrite Ew.
  assert (El : ltb 0 (0.26 * (19 / 28)) = true) by (rewrite ltb_true; lra).
  rewrite El.
  rewrite smoothstep_falling_in by lra.
  f_equal.
  - unfold green_center_low, shade_center_low, mix3, mix, add3, scale3; simpl.
    unfold Rdiv at 1 2 3. rewrite !Rmult_0_l.
    f_equal; lra.
  - simpl. unfold Rmax. destruct (Rle_dec 0 1); lra.
Qed.

Lemma shapes_center_low : shapes frame_center_low = MkAcc green_center_low 1.
Proof.
  unfold shapes.
  rewrite trunk_miss by (unfold trunkTop; simpl; lra).
  rewrite layer1_center_low.
  unfold layer2, layer3.
  rewrite !foliage_layer_miss
    by (unfold layer3Bottom, layer2Bottom, layer1Bottom; simpl; lra).
  rewrite lights_far_center_low by (simpl; lra).
  apply star_far_below; simpl; lra.
Qed.

Lemma shapes_corner : shapes frame_corner = MkAcc (Vec3 0 0 0) 0.
Proof.
  unfold shapes.
  rewrite trunk_miss by (unfold trunkBottom, trunkTop, trunkHeight; simpl; lra).
  unfold layer1, layer2, layer3.
  rewrite !foliage_layer_miss
    by (unfold layer3Bottom, layer2Bottom, layer1Bottom; simpl; lra).
  rewrite lights_far_corner by (simpl; lra).
  apply star_far_below; simpl; lra.
Qed.

(** The trunk covers the pixel (0.5, 0.09). *)
Lemma trunk_hit : trunk frame_trunk (MkAcc (Vec3 0 0 0) 0) = MkAcc brown_trunk 1.
Proof.
  unfold trunk.
  assert (Ex : vx (p frame_trunk) = 0) by reflexivity.
  rewrite Ex, Rabs_R0.
  assert (E : gtb (vy (p frame_trunk)) trunkBottom
              && ltb (vy (p frame_trunk)) trunkTop && ltb 0 trunkWidth = true).
  { rewrite !andb_true_iff, gtb_true, !ltb_true.
    unfold trunkBottom, trunkTop, trunkHeight, trunkWidth; simpl. lra. }
  rewrite E. cbv zeta.
  rewrite smoothstep_falling_in by (unfold trunkWidth; lra).
  f_equal. unfold brown_trunk, scale3, trunkWidth; simpl.
  unfold Rdiv at 1. rewrite Rmult_0_l. f_equal; lra.
Qed.

Lemma shapes_trunk : shapes frame_trunk = MkAcc brown_trunk 1.
Proof.
  unfold shapes. rewrite trunk_hit.
  unfold layer1, layer2, layer3.
  rewrite !foliage_layer_miss
    by (unfold layer3Bottom, layer2Bottom, layer1Bottom; simpl; lra).
  rewrite lights_far_trunk by (simpl; lra).
  apply star_far_below; simpl; lra.
Qed.

Lemma vignette_center_low : vignette (Vec2 0.5 0.20) = 1.
Proof.
  unfold vignette. rewrite smoothstep_rising_out; [lra | lra |].
  apply length_le_of_sq; [lra | simpl; lra].
Qed.

Lemma vignette_trunk : 0.7 < vignette (Vec2 0.5 0.09).
Proof.
  unfold vignette.
  assert (Hd : length (sub2s (Vec2 0.5 0.09) 0.5) <= 0.5)
    by (apply length_le_of_sq; [lra | simpl; lra]).
  pose proof (smoothstep_rising_mono 0.4 0.7 _ _ ltac:(lra) Hd) as Hm.
  assert (Hs : smoothstep 0.4 0.7 0.5 = 7 / 27).
  { unfold smoothstep.
    replace ((0.5 - 0.4) / (0.7 - 0.4)) with (1 / 3) by lra.
    unfold clamp, Rmin, Rmax.
    destruct (Rle_dec (1 / 3) 0); [lra|]. destruct (Rle_dec (1 / 3) 1); [|lra].
    unfold hermite. lra. }
  lra.
Qed.

Lemma main_center_low :
  main resolution (Vec2 0.5 0.20) 0 = Vec4 green_center_low 1.
Proof.
  unfold main. rewrite setup_center_low, shapes_center_low, edge_glow_opaque.
  cbn [finalColor finalAlpha uv frame_center_low].
  rewrite vignette_center_low. f_equal; lra.
Qed.

(** C4, refuted: at resolution 200 x 280 and time 0 the pixel (0.5, 0.20)
    is not brown-toned: its red component is 0. *)
Lemma center_low_not_brown :
  cr (rgb (main resolution (Vec2 0.5 0.20) 0)) = 0 /\
  ~ brown_toned (rgb (main resolution (Vec2 0.5 0.20) 0)).
Proof.
  rewrite main_center_low. unfold brown_toned, green_center_low, shade_center_low.
  simpl. lra.
Qed.

(** C4, as amended: at resolution 200 x 280 and time 0, the pixel at the
    normalized coordinate (0.5, 0.20) lies in foliage layer 1, above the
    trunk: it has alpha 1 and a green-toned colour with red 0, green in
    (0.44, 0.45) and blue in (0.24, 0.25).  The trunk is below it: the pixel
    (0.5, 0.09) has non-zero alpha and the brown-toned colour
    (0.28, 0.154, 0.07).  The pixel (0.02, 0.02) has alpha exactly 0 before
    the vignette multiplication, and after it. *)
Theorem end_to_end_pixels :
  let px := main resolution (Vec2 0.5 0.20) 0 in
  let tr := main resolution (Vec2 0.5 0.09) 0 in
  let far := shapes (setup resolution (Vec2 0.02 0.02) 0) in
  alpha px = 1 /\
  cr (rgb px) = 0 /\ 0.44 < cg (rgb px) < 0.45 /\ 0.24 < cb (rgb px) < 0.25 /\
  green_toned (rgb px) /\
  alpha tr <> 0 /\ rgb tr = brown_trunk /\ brown_toned (rgb tr) /\
  finalAlpha far = 0 /\ finalAlpha (edge_glow far) = 0 /\
  alpha (main resolution (Vec2 0.02 0.02) 0) = 0.
Proof.
  cbv zeta. rewrite main_center_low.
  unfold main.
  rewrite setup_corner, shapes_corner, edge_glow_clear.
  rewrite setup_trunk, shapes_trunk, edge_glow_opaque.
  pose proof vignette_trunk as Hv.
  unfold green_toned, brown_toned, brown_trunk, green_center_low,
         shade_center_low.
  cbn [alpha rgb finalColor finalAlpha uv frame_trunk frame_corner cr cg cb].
  repeat split; try lra.
Qed.

End Pixels.

(* ================================================================== *)
(** * No division by zero *)
(* ================================================================== *)

Module Divisions.
Import GLSL.
Import SceneShader.
Import GLSLFacts.
Import Spec.
Import StageFacts.
Open Scope R_scope.

Lemma div_some (a b : R) : b <> 0 -> Checked.div a b = Some (a / b).
Proof.
  intros H; unfold Checked.div.
  destruct (Req_dec_T b 0); [contradiction|reflexivity].
Qed.

Lemma quot_some (a b : Z) : b <> 0%Z -> Checked.quot a b = Some (Z.quot a b).
Proof.
  intros H; unfold Checked.quot.
  destruct (Z.eq_dec b 0); [contradiction|reflexivity].
Qed.

Lemma smoothstep_some (e0 e1 x : R) :
  e1 <> e0 -> Checked.smoothstep e0 e1 x = Some (smoothstep e0 e1 x).
Proof.
  intros H; unfold Checked.smoothstep. rewrite div_some by lra. reflexivity.
Qed.

Lemma setup_some (res fragCoord : vec2) (t : R) :
  vy res <> 0 -> Checked.setup res fragCoord t = Some (setup res fragCoord t).
Proof.
  intros H; unfold Checked.setup. rewrite div_some by exact H. reflexivity.
Qed.

Lemma trunk_some (F : Frame) (acc : Acc) :
  Checked.trunk F acc = Some (trunk F acc).
Proof.
  unfold Checked.trunk, trunk. destruct (_ && _); [|reflexivity].
  rewrite div_some by (unfold trunkWidth; lra).
  simpl. rewrite smoothstep_some by lra. reflexivity.
Qed.

(** Inside the inner test of a layer block the half-width is positive. *)
Lemma guarded_width_pos (x layerWidth : R) :
  ltb (Rabs x) layerWidth = true -> 0 < layerWidth.
Proof. rewrite ltb_true. pose proof (Rabs_pos x). lra. Qed.

Lemma floor_width (layerWidth : R) : 0.01 <= Rmax layerWidth 0.01.
Proof. apply Rmax_r. Qed.

Lemma foliage_layer_some (lo hi w : R) (F : Frame) (acc : Acc) :
  hi - lo <> 0 ->
  Checked.foliage_layer lo hi w F acc = Some (foliage_layer lo hi w F acc).
Proof.
  intros H; unfold Checked.foliage_layer, foliage_layer.
  destruct (in_band lo hi (p F)); [|reflexivity].
  rewrite div_some by exact H. simpl.
  destruct (ltb _ _) eqn:E; [|reflexivity].
  apply guarded_width_pos in E.
  rewrite div_some
    by (pose proof (floor_width (w * (1 - (vy (p F) - lo) / (hi - lo)))); lra).
  simpl. rewrite div_some by lra. simpl.
  rewrite smoothstep_some by lra. reflexivity.
Qed.

Lemma light_some (F : Frame) (i : Z) : Checked.light F i = Some (light F i).
Proof.
  unfold Checked.light. rewrite !smoothstep_some by lra.
  rewrite quot_some by lia. reflexivity.
Qed.

Lemma lights_some (F : Frame) (acc : Acc) :
  Checked.lights F acc = Some (lights F acc).
Proof.
  unfold Checked.lights, lights. revert acc.
  induction light_indices as [|i l IH]; intros acc; simpl; [reflexivity|].
  rewrite light_some. simpl. apply IH.
Qed.

Lemma star_locals_some (F : Frame) :
  Checked.star_locals F = Some (star_locals F).
Proof.
  pose proof (starShape_range F) as Hs. pose proof (starPulse_range F) as Hp.
  unfold Checked.star_locals. cbv zeta.
  change ((0.025 + 0.015 * pow (Rabs (sin (atan2 (vy (p F) - vy starPos)
             (vx (p F) - vx starPos) * 2.5 + 0.5))) 2.0)
          * (0.8 + 0.2 * sin (time F * 3.0)))
    with (starShape (star_locals F)).
  rewrite !smoothstep_some by lra. reflexivity.
Qed.

Lemma vignette_some (q : vec2) : Checked.vignette q = Some (vignette q).
Proof.
  unfold Checked.vignette. rewrite smoothstep_some by lra. reflexivity.
Qed.

Lemma shapes_some (F : Frame) : Checked.shapes F = Some (shapes F).
Proof.
  unfold Checked.shapes, Checked.layer1, Checked.layer2, Checked.layer3.
  rewrite trunk_some. simpl.
  rewrite foliage_layer_some by (unfold layer1Top; lra). simpl.
  rewrite foliage_layer_some by (unfold layer2Top; lra). simpl.
  rewrite foliage_layer_some by (unfold layer3Top; lra). simpl.
  rewrite lights_some. simpl. rewrite star_locals_some. reflexivity.
Qed.

(** C8: at resolution 200 x 280, for every normalized coordinate and time,
    the evaluation with every division checked never meets a zero divisor
    and returns the pixel of [main].  In a layer block, whenever the inner
    test [abs(p.x) < layerWidth] holds the half-width [layerWidth] is
    strictly positive, so the division of the centre-brightening term is
    defined; and the divisor [max(layerWidth, 0.01)] of the shade asymmetry
    is at least 0.01. *)
Theorem divisions_never_by_zero
    (fragCoord : vec2) (t : R) (layerBottom layerTop layerWidth0 : R)
    (F : Frame) :
  Checked.main resolution fragCoord t = Some (main resolution fragCoord t) /\
  (let heightNorm := (vy (p F) - layerBottom) / (layerTop - layerBottom) in
   let layerWidth := layerWidth0 * (1 - heightNorm) in
   ltb (Rabs (vx (p F))) layerWidth = true ->
   0 < layerWidth /\
   Checked.div (Rabs (vx (p F))) layerWidth
   = Some (Rabs (vx (p F)) / layerWidth)) /\
  (let heightNorm := (vy (p F) - layerBottom) / (layerTop - layerBottom) in
   let layerWidth := layerWidth0 * (1 - heightNorm) in
   0.01 <= Rmax layerWidth 0.01).
Proof.
  split; [|split].
  - unfold Checked.main.
    rewrite setup_some by (unfold resolution, Config.HEIGHT; simpl; lra).
    simpl. rewrite shapes_some. simpl. rewrite vignette_some. reflexivity.
  - intros heightNorm layerWidth Hguard.
    apply guarded_width_pos in Hguard.
    split; [exact Hguard | apply div_some; lra].
  - apply floor_width.
Qed.

Lemma divisions_never_by_zero_witness :
  0 < layer1Width * (1 - (vy (p frame_center_low) - layer1Bottom)
                         / (layer1Top - layer1Bottom)).
Proof.
  apply (divisions_never_by_zero (Vec2 0.5 0.20) 0
           layer1Bottom layer1Top layer1Width frame_center_low).
  rewrite ltb_true. unfold layer1Width, layer1Top, layer1Bottom; simpl.
  rewrite Rabs_R0. lra.
Defined.

End Divisions.

(* ================================================================== *)
(** * The starfield painter *)
(* ================================================================== *)

Module StarfieldFacts.
Import Starfield.
Open Scope Z_scope.

Lemma wrap_id (z : Z) : is_int z -> wrap z = z.
Proof.
  unfold is_int, int_min, int_max, wrap. intros H.
  rewrite Z.mod_small; lia.
Qed.

Lemma counter_draw_range (a b g : Z) :
  a <= b -> a <= fst (counter_draw a b g) <= b.
Proof.
  intros H; unfold counter_draw; simpl.
  pose proof (Z.mod_pos_bound g (b - a + 1) ltac:(lia)). lia.
Qed.

Section Sampling.
Context {Rng : Type} (draw : Z -> Z -> Rng -> Z * Rng).

(** The contract of [std::uniform_int_distribution]: on a non-empty range
    the value drawn lies in the range, whatever the engine state. *)
Hypothesis draw_range : forall a b g, a <= b -> a <= fst (draw a b g) <= b.

Lemma uniform_int_done (a b : Z) (g : Rng) :
  a <= b ->
  exists v g', uniform_int draw a b g = Done (v, g') /\ a <= v <= b.
Proof.
  intros H. unfold uniform_int.
  destruct (Z.ltb_spec b a); [lia|].
  pose proof (draw_range a b g H).
  destruct (draw a b g) as [v g']. now exists v, g'.
Qed.

Lemma uniform_int_empty (a b : Z) (g : Rng) :
  b < a -> uniform_int draw a b g = EmptyRange a b.
Proof.
  intros H. unfold uniform_int. destruct (Z.ltb_spec b a); [reflexivity|lia].
Qed.

(** One iteration with both position ranges non-empty. *)
Lemma new_star_done (cols rows : Z) (g : Rng) :
  3 <= wrap (cols - 2) -> 4 <= wrap (rows - 2) ->
  exists s g', new_star draw cols rows g = Done (s, g') /\
    3 <= x s <= wrap (cols - 2) /\ 4 <= y s <= wrap (rows - 2) /\
    0 <= color_type s <= 7 /\ 0 <= brightness s <= 100.
Proof.
  intros Hc Hr. unfold new_star.
  destruct (uniform_int_done 3 _ g Hc) as (sx & g1 & -> & Hx).
  destruct (uniform_int_done 4 _ g1 Hr) as (sy & g2 & -> & Hy).
  destruct (uniform_int_done 0 7 g2 ltac:(lia)) as (ct & g3 & -> & Hct).
  destruct (uniform_int_done 0 100 g3 ltac:(lia)) as (br & g4 & -> & Hbr).
  eexists _, g4. split; [reflexivity|]. simpl. auto.
Qed.

(** One iteration with an empty position range. *)
Lemma new_star_empty (cols rows : Z) (g : Rng) :
  wrap (cols - 2) < 3 \/ wrap (rows - 2) < 4 ->
  exists lo hi, new_star draw cols rows g = EmptyRange lo hi /\ hi < lo.
Proof.
  intros H. unfold new_star.
  destruct (Z_lt_le_dec (wrap (cols - 2)) 3) as [Hc|Hc].
  - rewrite uniform_int_empty by exact Hc. now exists 3, (wrap (cols - 2)).
  - destruct (uniform_int_done 3 _ g Hc) as (sx & g1 & -> & Hx).
    assert (Hr : wrap (rows - 2) < 4) by lia.
    rewrite uniform_int_empty by exact Hr. now exists 4, (wrap (rows - 2)).
Qed.

Lemma generate_done (cols rows : Z) (n : nat) :
  3 <= wrap (cols - 2) -> 4 <= wrap (rows - 2) ->
  forall (stars : list Star) (g : Rng),
  exists new g', generate draw n cols rows stars g = Done (stars ++ new, g') /\
    List.length new = n /\
    Forall (fun s => 3 <= x s <= wrap (cols - 2)
                     /\ 4 <= y s <= wrap (rows - 2)) new.
Proof.
  intros Hc Hr. induction n as [|n IH]; intros stars g; simpl.
  - exists [], g. rewrite app_nil_r. auto.
  - destruct (new_star_done cols rows g Hc Hr) as (s & g1 & -> & Hx & Hy & _).
    destruct (IH (stars ++ [s]) g1) as (new & g2 & -> & Hlen & Hall).
    exists (s :: new), g2. rewrite <- app_assoc. simpl.
    repeat split; auto.
Qed.

Lemma paint_done (cols rows : Z) (g : Rng) :
  3 <= wrap (cols - 2) -> 4 <= wrap (rows - 2) ->
  exists stars g', paint draw cols rows g = Done (stars, g') /\
    List.length stars = Z.to_nat (num_stars cols rows) /\
    Forall (fun s => 3 <= x s <= wrap (cols - 2)
                     /\ 4 <= y s <= wrap (rows - 2)) stars.
Proof.
  intros Hc Hr. unfold paint.
  destruct (generate_done cols rows (Z.to_nat (num_stars cols rows)) Hc Hr [] g)
    as (new & g' & E & Hlen & Hall).
  now exists new, g'.
Qed.

(** C9: with columns = 80 and rows = 24 the star count is
    [(80*24)/35 = 54]; the generation loop ends with exactly 54 stars, and
    every one of them has [3 <= x <= 80-2] and [4 <= y <= 24-2], whatever
    the sampler draws and whatever state the engine starts in. *)
Theorem default_terminal_stars (g : Rng) :
  num_stars 80 24 = (80 * 24) / 35 /\
  num_stars 80 24 = 54 /\
  exists stars g', paint draw 80 24 g = Done (stars, g') /\
    List.length stars = 54%nat /\
    Forall (in_range 80 24) stars.
Proof.
  split; [reflexivity|]. split; [reflexivity|].
  destruct (paint_done 80 24 g) as (stars & g' & E & Hlen & Hall);
    [vm_compute; discriminate | vm_compute; discriminate |].
  exists stars, g'. repeat split; [exact E | exact Hlen | exact Hall].
Qed.

(** C10, as amended: let columns and rows be [int]s.  Whenever the star
    count is at least 1, [columns - 2] and [rows - 2] do not wrap around
    (both dimensions are at least [INT_MIN + 2]), and [columns < 5] or
    [rows < 6], the first iteration constructs a distribution whose lower
    bound exceeds its upper bound.  Whenever [columns >= 5] and
    [rows >= 6], the loop ends, and every sampled [x] lies in
    [3, columns-2] and every sampled [y] in [4, rows-2]. *)
Theorem sampling_precondition (cols rows : Z) (g : Rng) :
  is_int cols -> is_int rows ->
  (1 <= num_stars cols rows ->
   int_min + 2 <= cols -> int_min + 2 <= rows ->
   cols < 5 \/ rows < 6 ->
   exists lo hi, paint draw cols rows g = EmptyRange lo hi /\ hi < lo) /\
  (5 <= cols -> 6 <= rows ->
   exists stars g', paint draw cols rows g = Done (stars, g') /\
     List.length stars = Z.to_nat (num_stars cols rows) /\
     Forall (in_range cols rows) stars).
Proof.
  intros Hic Hir.
  assert (Hw : forall z, is_int z -> int_min + 2 <= z -> wrap (z - 2) = z - 2).
  { intros z Hz Hlo. apply wrap_id. unfold is_int, int_min, int_max in *. lia. }
  split.
  - intros Hn Hc Hr Hsmall. unfold paint.
    destruct (Z.to_nat (num_stars cols rows)) as [|n] eqn:En; [lia|].
    simpl.
    destruct (new_star_empty cols rows g) as (lo & hi & -> & Hlt).
    { rewrite !Hw by assumption. lia. }
    now exists lo, hi.
  - intros Hc Hr.
    assert (Ec : wrap (cols - 2) = cols - 2)
      by (apply Hw; [assumption | unfold int_min; lia]).
    assert (Er : wrap (rows - 2) = rows - 2)
      by (apply Hw; [assumption | unfold int_min; lia]).
    destruct (paint_done cols rows g) as (stars & g' & E & Hlen & Hall);
      [lia | lia |].
    exists stars, g'. rewrite Ec, Er in Hall. repeat split; assumption.
Qed.

End Sampling.

Lemma default_terminal_stars_witness :
  exists stars g', paint counter_draw 80 24 0 = Done (stars, g') /\
    List.length stars = 54%nat /\
    Forall (in_range 80 24) stars.
Proof.
  apply (default_terminal_stars counter_draw counter_draw_range 0).
Defined.

Lemma sampling_precondition_witness :
  (exists lo hi, paint counter_draw 4 10 0 = EmptyRange lo hi /\ hi < lo) /\
  (exists stars g', paint counter_draw 80 24 0 = Done (stars, g') /\
     List.length stars = Z.to_nat (num_stars 80 24) /\
     Forall (in_range 80 24) stars).
Proof.
  split.
  - apply (sampling_precondition counter_draw counter_draw_range 4 10 0);
      unfold is_int, int_min, int_max; try lia.
    vm_compute; discriminate.
  - apply (sampling_precondition counter_draw counter_draw_range 80 24 0);
      unfold is_int, int_min, int_max; lia.
Defined.

(** C10, refuted: columns = -2147483647 and rows = 36 are [int]s with
    columns < 5; [columns * rows] wraps around to 36, so the star count is
    1; [columns - 2] wraps around to 2147483647, so both ranges are
    non-empty, and the loop ends with one star. *)
Lemma wrapped_width_samples :
  is_int (-2147483647) /\ is_int 36 /\
  num_stars (-2147483647) 36 = 1 /\
  -2147483647 < 5 /\
  wrap (-2147483647 - 2) = 2147483647 /\
  paint counter_draw (-2147483647) 36 0 = Done ([MkStar 3 5 2 3 Dot], 4).
Proof.
  unfold is_int, int_min, int_max.
  repeat split; try lia; try reflexivity; vm_compute; discriminate.
Qed.

End StarfieldFacts.

(* ================================================================== *)
(** * Further properties of the shader: reach of the shapes *)
(* ================================================================== *)

Module BoxFacts.
Import GLSL.
Import SceneShader.
Import GLSLFacts.
Import Spec.
Import StageFacts.
Open Scope R_scope.

Lemma Rabs_ge_cases (x r : R) : r <= Rabs x -> x <= - r \/ r <= x.
Proof. unfold Rabs. destruct (Rcase_abs x); lra. Qed.

Lemma Rabs_ge_of_cases (x r : R) : x <= - r \/ r <= x -> 0 <= r -> r <= Rabs x.
Proof. unfold Rabs. destruct (Rcase_abs x); lra. Qed.

(** A layer narrower than [|p.x|] at its base misses the pixel. *)
Lemma foliage_layer_narrow (lo hi w : R) (F : Frame) (acc : Acc) :
  lo < hi -> 0 <= w -> w <= Rabs (vx (p F)) ->
  foliage_layer lo hi w F acc = acc.
Proof.
  intros Hlh Hw Hx. unfold foliage_layer.
  destruct (in_band lo hi (p F)) eqn:Eb; [|reflexivity].
  apply in_band_iff in Eb.
  assert (Hh : 0 < (vy (p F) - lo) / (hi - lo)).
  { apply Rdiv_lt_0_compat; lra. }
  assert (E : ltb (Rabs (vx (p F)))
                  (w * (1 - (vy (p F) - lo) / (hi - lo))) = false).
  { rewrite ltb_false. nra. }
  cbv zeta. now rewrite E.
Qed.

(** The box of a light: 0.085 to either side of its anchor, 0.07 above and
    below. *)
Lemma add_light_outside (F : Frame) (i : Z) (acc : Acc) :
  0 <= finalAlpha acc ->
  0.085 <= Rabs (vx (p F) - vx (at2 lightPositions i)) \/
  0.07 <= Rabs (vy (p F) - vy (at2 lightPositions i)) ->
  add_light (light F i) acc = acc.
Proof.
  intros Ha H. pose proof (lightPos_x_range F i) as Hx.
  apply add_light_far; [exact Ha|].
  destruct H as [H|H].
  - eapply Rle_trans; [|apply light_d_ge_x].
    revert H. unfold Rabs.
    destruct (Rcase_abs _); destruct (Rcase_abs _); lra.
  - eapply Rle_trans; [|apply light_d_ge_y]. exact H.
Qed.

Lemma apply_star_outside (F : Frame) (acc : Acc) :
  0 <= finalAlpha acc ->
  0.12 <= Rabs (vx (p F) - 0) \/ 0.12 <= Rabs (vy (p F) - 0.38) ->
  apply_star (star_locals F) acc = acc.
Proof.
  intros Ha H. apply apply_star_far; [exact Ha|].
  destruct H as [H|H].
  - eapply Rle_trans; [|apply (length_ge_x (sub2 (p F) starPos))].
    simpl. replace (vx (p F) - 0.0) with (vx (p F) - 0) by lra. exact H.
  - eapply Rle_trans; [|apply (length_ge_y (sub2 (p F) starPos))]. exact H.
Qed.

Lemma lights_outside (F : Frame) (acc : Acc) :
  0 <= finalAlpha acc ->
  (forall i, In i light_indices ->
     0.085 <= Rabs (vx (p F) - vx (at2 lightPositions i)) \/
     0.07 <= Rabs (vy (p F) - vy (at2 lightPositions i))) ->
  lights F acc = acc.
Proof.
  intros Ha. unfold lights.
  induction light_indices as [|i l IH]; intros H; simpl; [reflexivity|].
  rewrite add_light_outside; [apply IH | exact Ha | apply H; now left].
  intros j Hj; apply H; now right.
Qed.

(** In centred coordinates: below -0.31, above 0.5, or 0.26 and more to
    either side, no shape touches the pixel. *)
Lemma shapes_outside_box (F : Frame) :
  vy (p F) <= -0.31 \/ 0.5 <= vy (p F) \/ 0.26 <= Rabs (vx (p F)) ->
  shapes F = MkAcc (Vec3 0 0 0) 0.
Proof.
  intros H. unfold shapes.
  rewrite trunk_miss
    by (unfold trunkBottom, trunkTop, trunkHeight, trunkWidth; lra).
  assert (HL : forall lo hi w acc,
            -0.31 < lo -> lo < hi -> hi < 0.5 -> 0 <= w <= 0.26 ->
            foliage_layer lo hi w F acc = acc).
  { intros lo hi w acc H1 H2 H3 H4.
    destruct H as [H|[H|H]].
    - apply foliage_layer_miss; lra.
    - apply foliage_layer_miss; lra.
    - apply foliage_layer_narrow; lra. }
  unfold layer1, layer2, layer3.
  rewrite !HL
    by (unfold layer3Top, layer3Bottom, layer2Top, layer2Bottom, layer1Top,
               layer1Bottom, layer3Width, layer2Width, layer1Width; lra).
  rewrite lights_outside; [| simpl; lra |].
  - apply apply_star_outside; [simpl; lra|].
    destruct H as [H|[H|H]].
    + right. apply Rabs_ge_of_cases; lra.
    + right. apply Rabs_ge_of_cases; lra.
    + left. replace (vx (p F) - 0) with (vx (p F)) by lra. lra.
  - intros i Hi. simpl in Hi.
    destruct H as [H|[H|H]].
    + right.
      repeat (destruct Hi as [<-|Hi];
              [apply Rabs_ge_of_cases; simpl; lra|]).
      contradiction.
    + right.
      repeat (destruct Hi as [<-|Hi];
              [apply Rabs_ge_of_cases; simpl; lra|]).
      contradiction.
    + left. apply Rabs_ge_cases in H.
      repeat (destruct Hi as [<-|Hi];
              [apply Rabs_ge_of_cases; simpl; lra|]).
      contradiction.
Qed.

(** X7: at resolution 200 x 280 every pixel outside the box
    0.136 < uv.x < 0.864, 0.04 < uv.y < 0.85 is written as transparent
    black (0, 0, 0, 0), at every time: no shape reaches it. *)
Theorem bounding_box (fragCoord : vec2) (t : R) :
  vy fragCoord <= 0.04 \/ 0.85 <= vy fragCoord \/
  vx fragCoord <= 0.136 \/ 0.864 <= vx fragCoord ->
  main resolution fragCoord t = Vec4 (Vec3 0 0 0) 0.
Proof.
  intros H. unfold main.
  rewrite shapes_outside_box.
  - rewrite edge_glow_clear. cbn [finalColor finalAlpha]. f_equal. ring.
  - unfold setup, resolution, Config.WIDTH, Config.HEIGHT, sub2; simpl.
    destruct H as [H|[H|[H|H]]].
    + left; lra.
    + right; left; lra.
    + right; right. apply Rabs_ge_of_cases; lra.
    + right; right. apply Rabs_ge_of_cases; lra.
Qed.

Lemma bounding_box_witness :
  main resolution (Vec2 0.1 0.5) 3 = Vec4 (Vec3 0 0 0) 0.
Proof. apply bounding_box. right; right; left. simpl. lra. Defined.

(** X8: at any resolution and time the output alpha is 0 wherever the pixel
    is 0.7 or more away from the centre (0.5, 0.5), in particular at the
    four corners of the unit square; and within 0.4 of the centre the
    vignette leaves the accumulated alpha as it is. *)
Theorem vignette_extremes (res fragCoord : vec2) (t : R) :
  (0.7 <= length (sub2s fragCoord 0.5) -> alpha (main res fragCoord t) = 0) /\
  (length (sub2s fragCoord 0.5) <= 0.4 ->
   alpha (main res fragCoord t) = finalAlpha (shapes (setup res fragCoord t))) /\
  ((vx fragCoord = 0 \/ vx fragCoord = 1) ->
   (vy fragCoord = 0 \/ vy fragCoord = 1) ->
   alpha (main res fragCoord t) = 0).
Proof.
  assert (H7 : 0.7 <= length (sub2s fragCoord 0.5) ->
               alpha (main res fragCoord t) = 0).
  { intros H. unfold main; cbn [alpha]. change (uv (setup res fragCoord t)) with fragCoord.
    unfold vignette. rewrite smoothstep_rising_in by lra. ring. }
  split; [exact H7|]. split.
  - intros H. unfold main; cbn [alpha].
    change (uv (setup res fragCoord t)) with fragCoord.
    unfold vignette. rewrite smoothstep_rising_out by lra.
    rewrite edge_glow_alpha. ring.
  - intros Hx Hy. apply H7.
    unfold length, sub2s; cbn [vx vy].
    rewrite <- (sqrt_square 0.7) by lra.
    apply sqrt_le_1_alt.
    destruct Hx as [-> | ->]; destruct Hy as [-> | ->]; lra.
Qed.

Lemma vignette_extremes_witness :
  alpha (main resolution (Vec2 1 0) 5) = 0.
Proof.
  apply (vignette_extremes resolution (Vec2 1 0) 5); [right | left]; reflexivity.
Defined.
End BoxFacts.

(* ================================================================== *)
(** * Further properties of the lights and the star *)
(* ================================================================== *)

Module LightFacts.
Import GLSL.
Import SceneShader.
Import GLSLFacts.
Import Spec.
Import StageFacts.
Import BoxFacts.
Open Scope R_scope.

(** X1: the index hash [fract(sin(n) * 43758.5453123)] lies in [0, 1) for
    every argument. *)
Theorem hash_range (n : R) : 0 <= hash n < 1.
Proof.
  unfold hash, fract, floor.
  pose proof (base_fp (sin n * 43758.5453123)) as [H0 H1].
  unfold frac_part in H0, H1. lra.
Qed.

(** X2: for every light index the blink phase lies in
    [i*0.8, i*0.8 + 6.28) and the blink speed in [2, 4). *)
Theorem blink_parameters_range (F : Frame) (i : Z) :
  IZR i * 0.8 <= blinkPhase (light F i) < IZR i * 0.8 + 6.28 /\
  2 <= blinkSpeed (light F i) < 4.
Proof.
  simpl.
  pose proof (hash_range (IZR i)). pose proof (hash_range (IZR i + 5.0)).
  lra.
Qed.

(** X3: at every pixel, resolution and time a light is never fully off: the
    blink brightness before the side-visibility factor lies in [0.3, 1],
    the side visibility in [0, 1], and the blink brightness after it in
    [0.09, 1]. *)
Theorem blink_never_off (res fragCoord : vec2) (t : R) (i : Z) :
  let L := light (setup res fragCoord t) i in
  0.3 <= blink0 L <= 1 /\
  0 <= sideVisibility L <= 1 /\
  0.09 <= blink L <= 1.
Proof.
  intros L. set (F := setup res fragCoord t) in *.
  pose proof (blink0_range F i) as Hb. fold L in Hb.
  pose proof (setup_rotPhase res fragCoord t) as Hr. fold F in Hr.
  assert (Hs : 0 <= sideVisibility L <= 1).
  { unfold L. simpl.
    match goal with |- context [sign ?a] => pose proof (sign_range a) end.
    change (sin (t * 0.5)) with (rotPhase F). nra. }
  change (blink L) with (blink0 L * (0.3 + 0.7 * sideVisibility L)).
  repeat split; try lra; nra.
Qed.

(** X4: for a light index [i] in [0,12) the colour index
    [i - (i / 8) * 8] is [i mod 8], lies in [0,8), and both array reads
    ([lightColors], [lightPositions]) are within bounds; light 7 is
    magenta and light 8 is hot pink again. *)
Theorem color_cycle (F : Frame) (i : Z) :
  (0 <= i < 12)%Z ->
  colorIdx (light F i) = (i mod 8)%Z /\
  (0 <= colorIdx (light F i) < 8)%Z /\
  (Z.to_nat (colorIdx (light F i)) < List.length lightColors)%nat /\
  (Z.to_nat i < List.length lightPositions)%nat /\
  In (thisColor (light F i)) lightColors /\
  thisColor (light F 7) = Vec3 1 0.05 0.65 /\
  thisColor (light F 8) = Vec3 1 0.15 0.5.
Proof.
  intros H.
  assert (Hc : colorIdx (light F i) = (i mod 8)%Z).
  { simpl. rewrite Z.quot_div_nonneg by lia.
    pose proof (Z.div_mod i 8 ltac:(lia)). lia. }
  pose proof (Z.mod_pos_bound i 8 ltac:(lia)) as Hm.
  split; [exact Hc|]. split; [lia|].
  split; [simpl List.length; lia|]. split; [simpl List.length; lia|].
  split; [|split; reflexivity].
  change (thisColor (light F i)) with (at3 lightColors (colorIdx (light F i))).
  rewrite Hc. unfold at3. apply nth_In. simpl List.length. lia.
Qed.

Lemma color_cycle_witness :
  colorIdx (light (setup resolution (Vec2 0.5 0.5) 0) 11) = 3%Z.
Proof.
  assert (Hi : (0 <= 11 < 12)%Z) by lia.
  destruct (color_cycle (setup resolution (Vec2 0.5 0.5) 0) 11 Hi) as (E & _).
  rewrite E. reflexivity.
Defined.

(** X5: a light sways at most 0.015 to either side of its anchor and not at
    all vertically, and it changes neither colour nor alpha of a pixel
    that is 0.085 or more away from the anchor horizontally or 0.07 or
    more vertically (the accumulated alpha being non-negative). *)
Theorem light_footprint (F : Frame) (i : Z) (acc : Acc) :
  0 <= finalAlpha acc ->
  0.085 <= Rabs (vx (p F) - vx (at2 lightPositions i)) \/
  0.07 <= Rabs (vy (p F) - vy (at2 lightPositions i)) ->
  Rabs (vx (lightPos (light F i)) - vx (at2 lightPositions i)) <= 0.015 /\
  vy (lightPos (light F i)) = vy (at2 lightPositions i) /\
  add_light (light F i) acc = acc.
Proof.
  intros Ha H.
  pose proof (lightPos_x_range F i) as Hx.
  split; [apply Rabs_le; lra|]. split; [reflexivity|].
  now apply add_light_outside.
Qed.

Lemma light_footprint_witness :
  add_light (light frame_corner 0) (MkAcc (Vec3 0 0 0) 0) = MkAcc (Vec3 0 0 0) 0.
Proof.
  apply (light_footprint frame_corner 0 (MkAcc (Vec3 0 0 0) 0)).
  - simpl; lra.
  - right. simpl. unfold Rabs. destruct (Rcase_abs _); lra.
Defined.

(** X6: the star changes neither colour nor alpha of a pixel that is 0.12
    or more away from the star anchor (0, 0.38) along either axis (the
    accumulated alpha being non-negative). *)
Theorem star_footprint (F : Frame) (acc : Acc) :
  0 <= finalAlpha acc ->
  0.12 <= Rabs (vx (p F) - 0) \/ 0.12 <= Rabs (vy (p F) - 0.38) ->
  apply_star (star_locals F) acc = acc.
Proof.
  intros Ha H. now apply apply_star_outside.
Qed.

Lemma star_footprint_witness :
  apply_star (star_locals frame_corner) (MkAcc (Vec3 0 0 0) 0)
  = MkAcc (Vec3 0 0 0) 0.
Proof.
  apply (star_footprint frame_corner (MkAcc (Vec3 0 0 0) 0)).
  - simpl; lra.
  - right. simpl. unfold Rabs. destruct (Rcase_abs _); lra.
Defined.
End LightFacts.

(* ================================================================== *)
(** * Further properties of the colour and of alpha *)
(* ================================================================== *)

Module ColourFacts.
Import GLSL.
Import SceneShader.
Import GLSLFacts.
Import Spec.
Import StageFacts.
Import Colour.
Open Scope R_scope.

Lemma ratio_below_one (x m : R) : Rabs x < m -> -1 < x / m < 1.
Proof.
  intros H. pose proof (Rabs_pos x) as Hp.
  assert (Hm : 0 < m) by lra.
  assert (Hx : - m < x < m) by (revert H; unfold Rabs; destruct (Rcase_abs x); lra).
  assert (Hi : 0 < / m) by now apply Rinv_0_lt_compat.
  assert (E : m * / m = 1) by (apply Rinv_r; lra).
  unfold Rdiv. split; nra.
Qed.

Lemma abs_ratio_unit (x m : R) : Rabs x < m -> 0 <= Rabs x / m < 1.
Proof.
  intros H. pose proof (Rabs_pos x) as Hp.
  assert (Hm : 0 < m) by lra.
  assert (Hi : 0 < / m) by now apply Rinv_0_lt_compat.
  assert (E : m * / m = 1) by (apply Rinv_r; lra).
  unfold Rdiv. split; nra.
Qed.

Lemma product_unit (r q : R) : -1 <= r <= 1 -> -1 < q < 1 -> -1 < r * q < 1.
Proof.
  intros Hr Hq.
  assert (H1 : Rabs r <= 1) by (apply Rabs_le; lra).
  assert (H2 : Rabs q < 1) by (apply Rabs_def1; lra).
  assert (H3 : Rabs (r * q) < 1).
  { rewrite Rabs_mult. pose proof (Rabs_pos r). pose proof (Rabs_pos q). nra. }
  apply Rabs_def2 in H3. lra.
Qed.





(** ** The colour stays non-negative through every stage *)

Lemma trunk_shade_range (F : Frame) :
  -1 <= rotPhase F <= 1 -> Rabs (vx (p F)) < trunkWidth ->
  0.4 < 0.7 + 0.3 * rotPhase F * (vx (p F) / trunkWidth) < 1.0.
Proof.
  intros Hr Hx.
  pose proof (product_unit _ _ Hr (ratio_below_one _ _ Hx)). lra.
Qed.


(** The shade of a layer block lies in (0.51, 1). *)
Lemma foliage_shade_range (F : Frame) (layerWidth heightNorm : R) :
  -1 <= rotPhase F <= 1 -> 0 < heightNorm < 1 ->
  Rabs (vx (p F)) < layerWidth ->
  0.51 < (0.6 + 0.4 * (0.5 + 0.5 * rotPhase F
                        * (vx (p F) / Rmax layerWidth 0.01)))
         * (0.85 + 0.15 * heightNorm) < 1.
Proof.
  intros Hr Hh Hx.
  assert (Hm : Rabs (vx (p F)) < Rmax layerWidth 0.01).
  { eapply Rlt_le_trans; [exact Hx | apply Rmax_l]. }
  pose proof (ratio_below_one _ _ Hm) as Hq.
  pose proof (product_unit _ _ Hr Hq) as Hrq.
  set (q := vx (p F) / Rmax layerWidth 0.01) in *.
  set (rq := rotPhase F * q) in *.
  replace (0.5 * rotPhase F * q) with (0.5 * rq) by (unfold rq; ring).
  nra.
Qed.

Lemma height_norm_unit (lo hi y : R) : lo < y < hi -> 0 < (y - lo) / (hi - lo) < 1.
Proof.
  intros H. split.
  - apply Rdiv_lt_0_compat; lra.
  - apply (Rmult_lt_reg_r (hi - lo)); [lra|].
    unfold Rdiv. rewrite Rmult_assoc, Rinv_l; lra.
Qed.

(** The colour a layer block writes when both of its tests hold. *)
Lemma foliage_colour (lo hi w : R) (F : Frame) (acc : Acc) :
  -1 <= rotPhase F <= 1 ->
  in_band lo hi (p F) = true ->
  ltb (Rabs (vx (p F))) (w * (1 - (vy (p F) - lo) / (hi - lo))) = true ->
  let c := finalColor (foliage_layer lo hi w F acc) in
  cr c = 0 /\ 0.31 < cg c < 0.525 /\ 0.17 < cb c < 0.29 /\ cb c < cg c.
Proof.
  intros Hr Hb Hx. unfold foliage_layer. rewrite Hb. cbv zeta. rewrite Hx.
  apply in_band_iff in Hb. apply ltb_true in Hx.
  pose proof (height_norm_unit lo hi _ Hb) as Hh.
  pose proof (foliage_shade_range F _ _ Hr Hh Hx) as Hs.
  pose proof (abs_ratio_unit _ _ Hx) as Hc.
  set (s := (0.6 + _) * _) in *.
  set (r := Rabs (vx (p F)) / _) in *.
  unfold mix3, mix, add3, scale3; simpl.
  repeat split; nra.
Qed.










(** ** Alpha only grows after the trunk *)

Lemma foliage_layer_grows (lo hi w : R) (F : Frame) (acc : Acc) :
  finalAlpha acc <= finalAlpha (foliage_layer lo hi w F acc).
Proof.
  unfold foliage_layer.
  destruct (in_band lo hi (p F)); [|lra].
  destruct (ltb _ _); [|lra].
  cbn [finalAlpha]. apply Rmax_l.
Qed.

Lemma lights_grow (F : Frame) (acc : Acc) :
  finalAlpha acc <= finalAlpha (lights F acc).
Proof.
  unfold lights. revert acc.
  induction light_indices as [|i l IH]; intros acc; simpl; [lra|].
  eapply Rle_trans; [|apply IH].
  unfold add_light; cbn [finalAlpha]. apply Rmax_l.
Qed.

Lemma apply_star_grows (S : Star) (acc : Acc) :
  finalAlpha acc <= finalAlpha (apply_star S acc).
Proof. unfold apply_star; cbn [finalAlpha]. apply Rmax_l. Qed.

(** X10: after the trunk, alpha never decreases: each layer block, the
    light loop and the star stage return an alpha at least the one they
    were given, so the alpha after the shape stages (and after the edge
    glow) is at least the alpha the trunk and layer 1 produced. *)
Theorem alpha_only_grows (F : Frame) (acc : Acc) :
  finalAlpha acc <= finalAlpha (layer1 F acc) /\
  finalAlpha acc <= finalAlpha (layer2 F acc) /\
  finalAlpha acc <= finalAlpha (layer3 F acc) /\
  finalAlpha acc <= finalAlpha (lights F acc) /\
  finalAlpha acc <= finalAlpha (apply_star (star_locals F) acc) /\
  finalAlpha (trunk F (MkAcc (Vec3 0 0 0) 0)) <= finalAlpha (shapes F) /\
  finalAlpha (layer1 F (trunk F (MkAcc (Vec3 0 0 0) 0)))
    <= finalAlpha (edge_glow (shapes F)).
Proof.
  split; [apply foliage_layer_grows|].
  split; [apply foliage_layer_grows|].
  split; [apply foliage_layer_grows|].
  split; [apply lights_grow|].
  split; [apply apply_star_grows|].
  assert (H : finalAlpha (layer1 F (trunk F (MkAcc (Vec3 0 0 0) 0)))
              <= finalAlpha (shapes F)).
  { unfold shapes.
    eapply Rle_trans; [|apply apply_star_grows].
    eapply Rle_trans; [|apply lights_grow].
    eapply Rle_trans; [|apply (foliage_layer_grows layer3Bottom layer3Top layer3Width)].
    apply (foliage_layer_grows layer2Bottom layer2Top layer2Width). }
  split.
  - eapply Rle_trans; [|exact H].
    apply (foliage_layer_grows layer1Bottom layer1Top layer1Width).
  - rewrite edge_glow_alpha. exact H.
Qed.
End ColourFacts.

Module ShapeFacts.
Import GLSL.
Import SceneShader.
Import GLSLFacts.
Import Spec.
Import StageFacts.
Import Colour.
Import ColourFacts.
Open Scope R_scope.

Lemma trunk_test_iff (F : Frame) :
  gtb (vy (p F)) trunkBottom && ltb (vy (p F)) trunkTop
    && ltb (Rabs (vx (p F))) trunkWidth = true
  <-> -0.30 < vy (p F) < -0.22 /\ Rabs (vx (p F)) < 0.045.
Proof.
  rewrite !andb_true_iff, gtb_true, !ltb_true.
  unfold trunkBottom, trunkTop, trunkHeight, trunkWidth. lra.
Qed.

(** X11: inside the trunk test (-0.30 < p.y < -0.22, |p.x| < 0.045), with
    the rotation phase in [-1,1], the trunk writes the colour
    (0.4, 0.22, 0.1) scaled by a shade in (0.4, 1), which is brown-toned,
    and an alpha in [0,1] that is exactly 1 for |p.x| <= 0.035. *)
Theorem trunk_interior (F : Frame) (acc : Acc) :
  -1 <= rotPhase F <= 1 ->
  -0.30 < vy (p F) < -0.22 -> Rabs (vx (p F)) < 0.045 ->
  (exists shade, 0.4 < shade < 1 /\
     finalColor (trunk F acc) = scale3 (Vec3 0.4 0.22 0.1) shade) /\
  brown_toned (finalColor (trunk F acc)) /\
  0 <= finalAlpha (trunk F acc) <= 1 /\
  (Rabs (vx (p F)) <= 0.035 -> finalAlpha (trunk F acc) = 1).
Proof.
  intros Hr Hy Hx.
  assert (E : gtb (vy (p F)) trunkBottom && ltb (vy (p F)) trunkTop
              && ltb (Rabs (vx (p F))) trunkWidth = true)
    by (apply trunk_test_iff; split; assumption).
  unfold trunk. rewrite E. cbv zeta. cbn [finalColor finalAlpha].
  assert (Hs : 0.4 < 0.7 + 0.3 * rotPhase F * (vx (p F) / trunkWidth) < 1.0)
    by (apply trunk_shade_range; [exact Hr | unfold trunkWidth; lra]).
  set (shade := 0.7 + 0.3 * rotPhase F * (vx (p F) / trunkWidth)) in *.
  split; [exists shade; split; [lra | reflexivity]|].
  split; [unfold brown_toned, scale3; simpl; lra|].
  split; [apply smoothstep_range|].
  intros Hin. apply smoothstep_falling_in; unfold trunkWidth; lra.
Qed.

Lemma trunk_interior_witness :
  brown_toned (finalColor (trunk frame_trunk (MkAcc (Vec3 0 0 0) 0))).
Proof.
  apply (trunk_interior frame_trunk (MkAcc (Vec3 0 0 0) 0)); simpl; try lra.
  rewrite Rabs_R0; lra.
Defined.

(** X12: when both tests of a layer block hold, with the rotation phase in
    [-1,1], the block writes a green-toned colour with red 0, green in
    (0.31, 0.525) and blue in (0.17, 0.29), whatever colour came before;
    alpha becomes the maximum of the old alpha and the edge softness, and
    is at least 1 when |p.x| <= layerWidth - 0.015. *)
Theorem foliage_interior (layerBottom layerTop layerWidth0 : R)
    (F : Frame) (acc : Acc) :
  -1 <= rotPhase F <= 1 ->
  layerBottom < vy (p F) < layerTop ->
  Rabs (vx (p F))
    < layerWidth0 * (1 - (vy (p F) - layerBottom) / (layerTop - layerBottom)) ->
  let layerWidth :=
    layerWidth0 * (1 - (vy (p F) - layerBottom) / (layerTop - layerBottom)) in
  let out := foliage_layer layerBottom layerTop layerWidth0 F acc in
  cr (finalColor out) = 0 /\
  0.31 < cg (finalColor out) < 0.525 /\
  0.17 < cb (finalColor out) < 0.29 /\
  green_toned (finalColor out) /\
  finalAlpha out
    = Rmax (finalAlpha acc)
           (smoothstep layerWidth (layerWidth - 0.015) (Rabs (vx (p F)))) /\
  (Rabs (vx (p F)) <= layerWidth - 0.015 -> 1 <= finalAlpha out).
Proof.
  intros Hr Hy Hx layerWidth out.
  assert (Eb : in_band layerBottom layerTop (p F) = true)
    by now apply in_band_iff.
  assert (Ex : ltb (Rabs (vx (p F))) layerWidth = true) by now apply ltb_true.
  destruct (foliage_colour layerBottom layerTop layerWidth0 F acc Hr Eb Ex)
    as (H1 & H2 & H3 & H4).
  fold out in H1, H2, H3, H4.
  assert (Ea : finalAlpha out
    = Rmax (finalAlpha acc)
           (smoothstep layerWidth (layerWidth - 0.015) (Rabs (vx (p F))))).
  { unfold out, foliage_layer. rewrite Eb. cbv zeta.
    fold layerWidth. rewrite Ex. reflexivity. }
  cbv zeta in H1, H2, H3, H4.
  change (foliage_layer layerBottom layerTop layerWidth0 F acc) with out
    in H1, H2, H3, H4.
  split; [exact H1|]. split; [exact H2|]. split; [exact H3|].
  split; [unfold green_toned; lra|]. split; [exact Ea|].
  intros Hin. rewrite Ea.
  rewrite smoothstep_falling_in by lra. apply Rmax_r.
Qed.

Lemma foliage_interior_witness :
  green_toned (finalColor (layer1 frame_center_low (MkAcc (Vec3 0 0 0) 0))).
Proof.
  apply (foliage_interior layer1Bottom layer1Top layer1Width frame_center_low
           (MkAcc (Vec3 0 0 0) 0));
    unfold layer1Top, layer1Bottom, layer1Width; simpl; try lra.
  rewrite Rabs_R0. lra.
Defined.

(** X13: the top of the trunk is painted over: for -0.24 < p.y < -0.22 and
    |p.x| < 0.045 the trunk writes a brown-toned colour and layer 1 then
    replaces it with a green-toned one with red 0, at alpha 1. *)
Theorem trunk_top_under_foliage (F : Frame) :
  -1 <= rotPhase F <= 1 ->
  -0.24 < vy (p F) < -0.22 -> Rabs (vx (p F)) < 0.045 ->
  brown_toned (finalColor (trunk F (MkAcc (Vec3 0 0 0) 0))) /\
  green_toned (finalColor (layer1 F (trunk F (MkAcc (Vec3 0 0 0) 0)))) /\
  cr (finalColor (layer1 F (trunk F (MkAcc (Vec3 0 0 0) 0)))) = 0 /\
  finalAlpha (layer1 F (trunk F (MkAcc (Vec3 0 0 0) 0))) = 1.
Proof.
  intros Hr Hy Hx.
  set (acc := trunk F (MkAcc (Vec3 0 0 0) 0)).
  assert (Et : gtb (vy (p F)) trunkBottom && ltb (vy (p F)) trunkTop
              && ltb (Rabs (vx (p F))) trunkWidth = true)
    by (apply trunk_test_iff; lra).
  assert (Hs : 0.4 < 0.7 + 0.3 * rotPhase F * (vx (p F) / trunkWidth) < 1.0)
    by (apply trunk_shade_range; [exact Hr | unfold trunkWidth; lra]).
  assert (Hb : brown_toned (finalColor acc)).
  { unfold acc, trunk. rewrite Et. cbv zeta. cbn [finalColor].
    unfold brown_toned, scale3; simpl. lra. }
  assert (Ha : 0 <= finalAlpha acc <= 1)
    by (apply trunk_alpha; simpl; lra).
  assert (Hh : 0 < (vy (p F) - layer1Bottom) / (layer1Top - layer1Bottom) < 1 / 14).
  { unfold layer1Top, layer1Bottom. split.
    - apply Rdiv_lt_0_compat; lra.
    - apply (Rmult_lt_reg_r (-0.24 + 0.28 - -0.24)); [lra|].
      unfold Rdiv at 1. rewrite Rmult_assoc, Rinv_l; lra. }
  set (hn := (vy (p F) - layer1Bottom) / (layer1Top - layer1Bottom)) in *.
  assert (Hw : 0.24 < layer1Width * (1 - hn)) by (unfold layer1Width; lra).
  assert (Eb : in_band layer1Bottom layer1Top (p F) = true).
  { apply in_band_iff. unfold layer1Top, layer1Bottom. lra. }
  assert (Ex : ltb (Rabs (vx (p F))) (layer1Width * (1 - hn)) = true)
    by (apply ltb_true; lra).
  destruct (foliage_colour layer1Bottom layer1Top layer1Width F acc Hr Eb Ex)
    as (H1 & H2 & H3 & H4).
  cbv zeta in H1, H2, H3, H4.
  split; [exact Hb|]. split; [unfold green_toned, layer1; lra|].
  split; [exact H1|].
  unfold layer1, foliage_layer. rewrite Eb. cbv zeta. fold hn. rewrite Ex.
  cbn [finalAlpha]. rewrite smoothstep_falling_in by lra.
  unfold Rmax. destruct (Rle_dec (finalAlpha acc) 1); lra.
Qed.

Lemma trunk_top_under_foliage_witness :
  green_toned (finalColor
    (layer1 (MkFrame (Vec2 0.5 0.12) (200 / 280) (Vec2 0 (-0.23)) 0 0 0)
       (trunk (MkFrame (Vec2 0.5 0.12) (200 / 280) (Vec2 0 (-0.23)) 0 0 0)
          (MkAcc (Vec3 0 0 0) 0)))).
Proof.
  apply (trunk_top_under_foliage
           (MkFrame (Vec2 0.5 0.12) (200 / 280) (Vec2 0 (-0.23)) 0 0 0));
    simpl; try lra.
  rewrite Rabs_R0; lra.
Defined.
End ShapeFacts.

Module CoreFacts.
Import GLSL.
Import SceneShader.
Import GLSLFacts.
Import Spec.
Import StageFacts.
Import Colour.
Import ColourFacts.
Open Scope R_scope.

Lemma foliage_core_opaque (lo hi w : R) (F : Frame) (acc : Acc) :
  lo < vy (p F) < hi ->
  Rabs (vx (p F)) <= w * (1 - (vy (p F) - lo) / (hi - lo)) - 0.015 ->
  1 <= finalAlpha (foliage_layer lo hi w F acc).
Proof.
  intros Hy Hx. unfold foliage_layer.
  assert (Eb : in_band lo hi (p F) = true) by now apply in_band_iff.
  rewrite Eb. cbv zeta.
  assert (Ex : ltb (Rabs (vx (p F)))
                   (w * (1 - (vy (p F) - lo) / (hi - lo))) = true)
    by (apply ltb_true; lra).
  rewrite Ex. cbn [finalAlpha].
  rewrite smoothstep_falling_in by lra. apply Rmax_r.
Qed.

Lemma trunk_core_opaque (F : Frame) (acc : Acc) :
  -0.30 < vy (p F) < -0.22 -> Rabs (vx (p F)) <= 0.035 ->
  finalAlpha (trunk F acc) = 1.
Proof.
  intros Hy Hx. unfold trunk.
  assert (E : gtb (vy (p F)) trunkBottom && ltb (vy (p F)) trunkTop
              && ltb (Rabs (vx (p F))) trunkWidth = true).
  { rewrite !andb_true_iff, gtb_true, !ltb_true.
    unfold trunkBottom, trunkTop, trunkHeight, trunkWidth. lra. }
  rewrite E. cbv zeta. cbn [finalAlpha].
  apply smoothstep_falling_in; unfold trunkWidth; lra.
Qed.

Lemma edge_glow_solid (acc : Acc) : 0.95 <= finalAlpha acc -> edge_glow acc = acc.
Proof.
  intros H. unfold edge_glow.
  assert (E : ltb (finalAlpha acc) 0.95 = false) by (apply ltb_false; lra).
  now rewrite E, andb_false_r.
Qed.

(** X20: in the core of the trunk (|p.x| <= 0.035) or of a layer
    (|p.x| <= layerWidth - 0.015) the alpha after the shape stages is at
    least 1, so the edge-glow stage adds no tint there. *)
Theorem solid_interior (F : Frame) :
  (-0.30 < vy (p F) < -0.22 /\ Rabs (vx (p F)) <= 0.035) \/
  (layer1Bottom < vy (p F) < layer1Top /\
   Rabs (vx (p F))
   <= layer1Width * (1 - (vy (p F) - layer1Bottom) / (layer1Top - layer1Bottom))
      - 0.015) \/
  (layer2Bottom < vy (p F) < layer2Top /\
   Rabs (vx (p F))
   <= layer2Width * (1 - (vy (p F) - layer2Bottom) / (layer2Top - layer2Bottom))
      - 0.015) \/
  (layer3Bottom < vy (p F) < layer3Top /\
   Rabs (vx (p F))
   <= layer3Width * (1 - (vy (p F) - layer3Bottom) / (layer3Top - layer3Bottom))
      - 0.015) ->
  1 <= finalAlpha (shapes F) /\ edge_glow (shapes F) = shapes F.
Proof.
  intros H.
  assert (Ha : 1 <= finalAlpha (shapes F)).
  { unfold shapes.
    eapply Rle_trans; [|apply apply_star_grows].
    eapply Rle_trans; [|apply lights_grow].
    destruct H as [[Hy Hx]|[[Hy Hx]|[[Hy Hx]|[Hy Hx]]]].
    - unfold layer3, layer2, layer1.
      do 3 (eapply Rle_trans; [|apply foliage_layer_grows]).
      rewrite trunk_core_opaque by assumption. lra.
    - unfold layer3, layer2.
      do 2 (eapply Rle_trans; [|apply foliage_layer_grows]).
      now apply foliage_core_opaque.
    - unfold layer3.
      eapply Rle_trans; [|apply foliage_layer_grows].
      now apply foliage_core_opaque.
    - now apply foliage_core_opaque. }
  split; [exact Ha|]. apply edge_glow_solid. lra.
Qed.

Lemma solid_interior_witness :
  1 <= finalAlpha (shapes frame_trunk) /\
  edge_glow (shapes frame_trunk) = shapes frame_trunk.
Proof.
  apply solid_interior. left. simpl. rewrite Rabs_R0. lra.
Defined.
End CoreFacts.

(* ================================================================== *)
(** * The resolution and the quad *)
(* ================================================================== *)

Module DriverFacts.
Import GLSL.
Import SceneShader.
Import GLSLFacts.
Import Spec.
Import StageFacts.
Open Scope R_scope.

(** X14: the resolution height is the only divisor that can be zero: with
    [uResolution.y = 0] the checked evaluation aborts at the aspect ratio,
    and with any other resolution it returns the pixel of [main]. *)
Theorem zero_height_is_the_only_failure (res fragCoord : vec2) (t : R) :
  (vy res = 0 -> Checked.main res fragCoord t = None) /\
  (vy res <> 0 ->
   Checked.main res fragCoord t = Some (main res fragCoord t)).
Proof.
  split; intros H; unfold Checked.main.
  - unfold Checked.setup, Checked.div.
    destruct (Req_dec_T (vy res) 0); [reflexivity | contradiction].
  - rewrite Divisions.setup_some by exact H. simpl.
    rewrite Divisions.shapes_some. simpl.
    rewrite Divisions.vignette_some. reflexivity.
Qed.

Lemma zero_height_is_the_only_failure_witness :
  Checked.main (Vec2 200 0) (Vec2 0.5 0.5) 0 = None /\
  Checked.main (Vec2 1 1) (Vec2 0.5 0.5) 0 = Some (main (Vec2 1 1) (Vec2 0.5 0.5) 0).
Proof.
  split.
  - apply (zero_height_is_the_only_failure (Vec2 200 0) (Vec2 0.5 0.5) 0).
    reflexivity.
  - apply (zero_height_is_the_only_failure (Vec2 1 1) (Vec2 0.5 0.5) 0).
    simpl; lra.
Defined.


End DriverFacts.

(* ================================================================== *)
(** * Further properties of the starfield painter *)
(* ================================================================== *)

Module TerminalFacts.
Import Starfield.
Import Terminal.
Import StarfieldFacts.
Open Scope Z_scope.

Lemma cap_le (v : Z) : cap v <= 255.
Proof. unfold cap. destruct (Z.ltb_spec 255 v); lia. Qed.

Lemma cap_small (v : Z) : v <= 255 -> cap v = v.
Proof. intros H. unfold cap. destruct (Z.ltb_spec 255 v); lia. Qed.

Lemma wrap_small (z : Z) : -1000 <= z <= 1000 -> wrap z = z.
Proof. intros H. apply wrap_id. unfold is_int, int_min, int_max. lia. Qed.

Lemma color_rgb_generated (type brightness : Z) :
  0 <= type <= 7 -> 0 <= brightness <= 100 ->
  let '(r, g, b) := color_rgb type brightness in
  base_color type brightness = (r, g, b) /\
  30 <= r <= 253 /\ 30 <= g <= 253 /\ 30 <= b <= 253.
Proof.
  intros Ht Hb.
  pose proof (Z.quot_div_nonneg brightness 2 ltac:(lia) ltac:(lia)) as Q2.
  pose proof (Z.quot_div_nonneg brightness 3 ltac:(lia) ltac:(lia)) as Q3.
  pose proof (Z.quot_div_nonneg brightness 4 ltac:(lia) ltac:(lia)) as Q4.
  assert (C : type = 0 \/ type = 1 \/ type = 2 \/ type = 3 \/ type = 4
              \/ type = 5 \/ type = 6 \/ type = 7) by lia.
  unfold color_rgb.
  repeat (destruct C as [-> | C]); try subst type;
    cbn [base_color]; rewrite ?Q2, ?Q3, ?Q4; clear Q2 Q3 Q4;
    pose proof (Z.div_pos brightness 2 ltac:(lia) ltac:(lia));
    pose proof (Z.div_le_upper_bound brightness 2 50 ltac:(lia) ltac:(lia));
    pose proof (Z.div_pos brightness 3 ltac:(lia) ltac:(lia));
    pose proof (Z.div_lt_upper_bound brightness 3 34 ltac:(lia) ltac:(lia));
    pose proof (Z.div_pos brightness 4 ltac:(lia) ltac:(lia));
    pose proof (Z.div_le_upper_bound brightness 4 25 ltac:(lia) ltac:(lia));
    rewrite !wrap_small by lia; rewrite !cap_small by lia;
    (split; [reflexivity | lia]).
Qed.

(** X18: the three numbers [get_color_sequence] prints never exceed 255;
    for a type in [0,7] and a brightness in [0,100] they lie in [30, 253]
    and the cap at 255 is not reached; a type outside [0,7] gives
    (200, 200, 200); and there is no lower cap: type 0 with a brightness
    below -40 prints a negative red component. *)
Theorem color_components (type brightness : Z) :
  (let '(r, g, b) := color_rgb type brightness in
   r <= 255 /\ g <= 255 /\ b <= 255) /\
  (0 <= type <= 7 -> 0 <= brightness <= 100 ->
   let '(r, g, b) := color_rgb type brightness in
   base_color type brightness = (r, g, b) /\
   30 <= r <= 253 /\ 30 <= g <= 253 /\ 30 <= b <= 253) /\
  (type < 0 \/ 7 < type -> color_rgb type brightness = (200, 200, 200)) /\
  (is_int brightness -> brightness < -40 ->
   fst (fst (color_rgb 0 brightness)) = 40 + brightness /\
   fst (fst (color_rgb 0 brightness)) < 0).
Proof.
  split; [|split; [|split]].
  - unfold color_rgb. destruct (base_color type brightness) as [[r g] b].
    repeat split; apply cap_le.
  - apply color_rgb_generated.
  - intros H. unfold color_rgb, base_color.
    destruct type as [|q|q]; [lia | | reflexivity].
    do 3 (destruct q as [q|q|]; try lia; try reflexivity).
  - intros Hi Hb. unfold color_rgb; cbn [base_color fst].
    rewrite (wrap_id (40 + brightness))
      by (unfold is_int, int_min, int_max in *; lia).
    rewrite cap_small by lia. lia.
Qed.

(** X19: the glyph is an asterisk exactly when brightness > 85, a plus
    exactly when 65 < brightness <= 85, and a dot exactly when
    brightness <= 65: the threshold 45 changes nothing. *)
Theorem symbol_thresholds (brightness : Z) :
  (symbol_of brightness = Asterisk <-> 85 < brightness) /\
  (symbol_of brightness = Plus <-> 65 < brightness <= 85) /\
  (symbol_of brightness = Dot <-> brightness <= 65).
Proof.
  unfold symbol_of.
  destruct (Z.ltb_spec 85 brightness); [|destruct (Z.ltb_spec 65 brightness);
    [|destruct (Z.ltb_spec 45 brightness)]];
    repeat split; intros; try lia; try discriminate; try reflexivity.
Qed.

Section Runs.
Context {Rng : Type} (draw : Z -> Z -> Rng -> Z * Rng).

(** X16: when the star count is not positive the loop constructs no
    distribution and draws nothing: no star, the engine state untouched,
    and the output is the save-cursor, reset and restore-cursor sequences
    alone.  With [0 <= cols*rows < 35] the count is 0; with
    [35 <= cols*rows <= INT_MAX] it is at least 1. *)
Theorem too_small_terminal (cols rows : Z) (g : Rng) :
  (num_stars cols rows <= 0 ->
   paint draw cols rows g = Done ([], g) /\
   run draw cols rows g = Done (esc ++ "[s" ++ esc ++ "[0m" ++ esc ++ "[u")%string) /\
  (0 <= cols * rows < 35 -> num_stars cols rows = 0) /\
  (35 <= cols * rows <= int_max -> 1 <= num_stars cols rows).
Proof.
  split; [|split].
  - intros H. 
    assert (E : paint draw cols rows g = Done ([], g)).
    { unfold paint. replace (Z.to_nat (num_stars cols rows)) with 0%nat by lia.
      reflexivity. }
    split; [exact E|]. unfold run. rewrite E. reflexivity.
  - intros H. unfold num_stars.
    rewrite wrap_id by (unfold is_int, int_min, int_max; lia).
    apply Z.quot_small. lia.
  - intros H. unfold num_stars.
    rewrite wrap_id by (unfold is_int, int_min, int_max in *; lia).
    rewrite Z.quot_div_nonneg by lia.
    apply Z.div_le_lower_bound; lia.
Qed.

Hypothesis draw_range : forall a b g, a <= b -> a <= fst (draw a b g) <= b.

Lemma generate_attributes (cols rows : Z) (n : nat) :
  3 <= wrap (cols - 2) -> 4 <= wrap (rows - 2) ->
  forall (stars : list Star) (g : Rng),
  exists new g', generate draw n cols rows stars g = Done (stars ++ new, g') /\
    Forall (fun s => 0 <= color_type s <= 7 /\ 0 <= brightness s <= 100 /\
                     symbol s = symbol_of (brightness s)) new.
Proof.
  intros Hc Hr. induction n as [|n IH]; intros stars g; simpl.
  - exists [], g. rewrite app_nil_r. auto.
  - unfold new_star.
    destruct (uniform_int_done draw draw_range 3 _ g Hc) as (sx & g1 & -> & Hx).
    destruct (uniform_int_done draw draw_range 4 _ g1 Hr) as (sy & g2 & -> & Hy).
    destruct (uniform_int_done draw draw_range 0 7 g2 ltac:(lia))
      as (ct & g3 & -> & Hct).
    destruct (uniform_int_done draw draw_range 0 100 g3 ltac:(lia))
      as (br & g4 & -> & Hbr).
    destruct (IH (stars ++ [MkStar sx sy ct br (symbol_of br)]) g4)
      as (new & g5 & -> & Hall).
    exists (MkStar sx sy ct br (symbol_of br) :: new), g5.
    rewrite <- app_assoc. simpl. split; [reflexivity|].
    constructor; [simpl; auto | exact Hall].
Qed.

(** X17: for [int] dimensions with [cols >= 5] and [rows >= 6], whatever
    the sampler draws, the run ends and prints the rendering of its stars;
    every star has a colour type in [0,7], a brightness in [0,100], the
    glyph of its brightness, and colour components in [30, 253]. *)
Theorem star_attributes (cols rows : Z) (g : Rng) :
  is_int cols -> is_int rows -> 5 <= cols -> 6 <= rows ->
  exists stars g', paint draw cols rows g = Done (stars, g') /\
    run draw cols rows g = Done (render stars) /\
    Forall (fun s =>
              0 <= color_type s <= 7 /\ 0 <= brightness s <= 100 /\
              symbol s = symbol_of (brightness s) /\
              let '(r, g, b) := color_rgb (color_type s) (brightness s) in
              30 <= r <= 253 /\ 30 <= g <= 253 /\ 30 <= b <= 253) stars.
Proof.
  intros Hic Hir Hc Hr.
  assert (Ec : wrap (cols - 2) = cols - 2)
    by (apply wrap_id; unfold is_int, int_min, int_max in *; lia).
  assert (Er : wrap (rows - 2) = rows - 2)
    by (apply wrap_id; unfold is_int, int_min, int_max in *; lia).
  destruct (generate_attributes cols rows (Z.to_nat (num_stars cols rows))
              ltac:(lia) ltac:(lia) [] g) as (stars & g' & E & Hall).
  exists stars, g'. simpl in E.
  split; [exact E|]. split; [unfold run, paint; rewrite E; reflexivity|].
  eapply Forall_impl; [|exact Hall].
  intros s (Ht & Hb & Hs). repeat split; try lia; try exact Hs.
  pose proof (color_rgb_generated (color_type s) (brightness s) Ht Hb) as Hrgb.
  destruct (color_rgb (color_type s) (brightness s)) as [[r gg] b].
  tauto.
Qed.

(** Arguments take precedence over the environment, and the
    environment over the defaults: with two or more arguments the size is
    read from the first two whatever [COLUMNS] and [LINES] hold; with one,
    the rows come from [LINES] or are 24; with none and no environment the
    size is 80 x 24. *)
Theorem arguments_override_environment
    (atoi : string -> Z) (env_cols env_rows : option string)
    (prog c r : string) (rest : list string) (g : Rng) :
  Terminal.main draw atoi env_cols env_rows (prog :: c :: r :: rest) g
    = run draw (atoi c) (atoi r) g /\
  Terminal.main draw atoi env_cols env_rows [prog; c] g
    = run draw (atoi c)
          (match env_rows with Some s => atoi s | None => 24 end) g /\
  Terminal.main draw atoi env_cols env_rows [prog] g
    = run draw (match env_cols with Some s => atoi s | None => 80 end)
          (match env_rows with Some s => atoi s | None => 24 end) g /\
  Terminal.main draw atoi None None [prog] g = run draw 80 24 g.
Proof.
  unfold Terminal.main, terminal_size.
  assert (E : (2 <? Z.of_nat (List.length (prog :: c :: r :: rest))) = true).
  { apply Z.ltb_lt. simpl List.length. lia. }
  assert (E1 : (1 <? Z.of_nat (List.length (prog :: c :: r :: rest))) = true).
  { apply Z.ltb_lt. simpl List.length. lia. }
  cbv zeta. rewrite E, E1. repeat split; reflexivity.
Qed.

End Runs.

Lemma star_attributes_witness :
  exists stars g', paint counter_draw 80 24 0 = Done (stars, g') /\
    run counter_draw 80 24 0 = Done (render stars) /\
    Forall (fun s =>
              0 <= color_type s <= 7 /\ 0 <= brightness s <= 100 /\
              symbol s = symbol_of (brightness s) /\
              let '(r, g, b) := color_rgb (color_type s) (brightness s) in
              30 <= r <= 253 /\ 30 <= g <= 253 /\ 30 <= b <= 253) stars.
Proof.
  apply (star_attributes counter_draw counter_draw_range 80 24 0);
    unfold is_int, int_min, int_max; lia.
Defined.

Lemma too_small_terminal_witness :
  paint counter_draw 5 6 0 = Done ([], 0) /\ num_stars 5 6 = 0 /\
  1 <= num_stars 5 7.
Proof.
  destruct (too_small_terminal counter_draw 5 6 0) as (H1 & H2 & _).
  destruct (too_small_terminal counter_draw 5 7 0) as (_ & _ & H3).
  split; [apply H1; rewrite H2; lia|]. split; [apply H2; lia|].
  apply H3. unfold int_max. lia.
Defined.

Lemma color_components_witness :
  color_rgb 9 50 = (200, 200, 200) /\
  fst (fst (color_rgb 0 (-100))) < 0 /\
  (let '(r, g, b) := color_rgb 4 100 in
   base_color 4 100 = (r, g, b) /\
   30 <= r <= 253 /\ 30 <= g <= 253 /\ 30 <= b <= 253).
Proof.
  destruct (color_components 9 50) as (_ & _ & H3 & _).
  destruct (color_components 0 (-100)) as (_ & _ & _ & H4).
  destruct (color_components 4 100) as (_ & H2 & _).
  split; [apply H3; lia|].
  split; [apply H4; unfold is_int, int_min, int_max; lia|].
  apply H2; lia.
Defined.

Lemma symbol_thresholds_witness : symbol_of 66 = Plus /\ symbol_of 46 = Dot.
Proof.
  split.
  - apply (symbol_thresholds 66). lia.
  - apply (symbol_thresholds 46). lia.
Defined.
End TerminalFacts.
